(** * Search-query analytics: the normalisation and scoring pipeline

    A shallow embedding of [streamlit_app.py]: the header cleaner
    [_clean_col], the cell coercers [_to_number] and [_coerce_percent],
    and the table pipeline [prep_df] with the module-level guard that
    calls it.

    Conventions of the embedding.
    - A Python [float] is a value of [float]: a finite number, carried
      by a real, or one of [+inf], [-inf], [nan].  Arithmetic on finite
      values is exact; rounding, overflow and the sign of zero are not
      represented.  A missing cell is [nan], as pandas stores it.
    - A [str] is a [string] of ASCII characters; white space is the
      ASCII part of what [str.isspace] accepts.
    - A DataFrame is its index (the row labels) and an ordered list of
      labelled columns; column expressions are evaluated row by row, by
      position.  Label lookup ([df[c]], [df.get(c)]) is modelled for
      labels that occur once; the only repeated label the pipeline
      handles on purpose is the literal [Delta] header, which is
      renamed by position before any lookup.
    - Object identity is modelled by a heap of frames: [df.copy()] and
      boolean-mask selection allocate, assignments into [df] mutate. *)

From Stdlib Require Import Reals Lra Lia List String Ascii Bool Arith ZArith.
Import ListNotations.

Local Open Scope string_scope.
Local Open Scope list_scope.
Local Open Scope nat_scope.

(** ** Python string methods *)

Module PyStr.

(** [str.isspace] on one ASCII character: TAB, LF, VT, FF, CR,
    FS, GS, RS, US and the space. *)
Definition is_space (c : ascii) : bool :=
  let n := nat_of_ascii c in
  ((9 <=? n) && (n <=? 13)) || ((28 <=? n) && (n <=? 32)).

Definition newline : string := String (ascii_of_nat 10) EmptyString.

Fixpoint lstrip (s : string) : string :=
  match s with
  | EmptyString => EmptyString
  | String c r => if is_space c then lstrip r else s
  end.

Fixpoint rstrip (s : string) : string :=
  match s with
  | EmptyString => EmptyString
  | String c r =>
      match rstrip r with
      | EmptyString => if is_space c then EmptyString else String c EmptyString
      | r' => String c r'
      end
  end.

(** [s.strip()] *)
Definition strip (s : string) : string := rstrip (lstrip s).

(** [s.startswith(p)] *)
Fixpoint startswith (p s : string) : bool :=
  match p, s with
  | EmptyString, _ => true
  | String a p', String b s' => Ascii.eqb a b && startswith p' s'
  | String _ _, EmptyString => false
  end.

(** [s.replace(old, new)] for a non-empty [old]: occurrences are
    replaced from the left and do not overlap.  [skip] counts the
    characters of a match that are still to be passed over. *)
Fixpoint replace_from (skip : nat) (old new s : string) : string :=
  match s with
  | EmptyString => EmptyString
  | String c r =>
      match skip with
      | S k => replace_from k old new r
      | O =>
          if startswith old s
          then new ++ replace_from (String.length old - 1) old new r
          else String c (replace_from 0 old new r)
      end
  end.

Definition replace (old new s : string) : string :=
  match old with
  | EmptyString => s
  | _ => replace_from 0 old new s
  end.

(** [s.endswith(c)] for a one-character suffix. *)
Fixpoint endswith_char (c : ascii) (s : string) : bool :=
  match s with
  | EmptyString => false
  | String a EmptyString => Ascii.eqb a c
  | String _ r => endswith_char c r
  end.

(** [s[:-1]] *)
Fixpoint drop_last (s : string) : string :=
  match s with
  | EmptyString => EmptyString
  | String _ EmptyString => EmptyString
  | String a r => String a (drop_last r)
  end.

(** [re.sub(r"\s+", " ", s)]: every maximal run of white space becomes
    one space.  [in_run] tells that the previous character was white
    space, so the run has already been written. *)
Fixpoint collapse_ws (in_run : bool) (s : string) : string :=
  match s with
  | EmptyString => EmptyString
  | String c r =>
      if is_space c
      then (if in_run then collapse_ws true r
            else String " "%char (collapse_ws true r))
      else String c (collapse_ws false r)
  end.

(** [s.lower()] on ASCII. *)
Definition lower_char (c : ascii) : ascii :=
  let n := nat_of_ascii c in
  if (65 <=? n) && (n <=? 90) then ascii_of_nat (n + 32) else c.

Fixpoint lower (s : string) : string :=
  match s with
  | EmptyString => EmptyString
  | String c r => String (lower_char c) (lower r)
  end.

(** No character of [s] is white space. *)
Fixpoint no_space (s : string) : bool :=
  match s with
  | EmptyString => true
  | String c r => negb (is_space c) && no_space r
  end.

End PyStr.

(** ** Exceptions *)

Inductive exn : Type :=
| NameError (name : string).

Inductive result (A : Type) : Type :=
| Ok (a : A)
| Raise (e : exn).

Arguments Ok {A} a.
Arguments Raise {A} e.

Definition rbind {A B} (m : result A) (k : A -> result B) : result B :=
  match m with
  | Ok a => k a
  | Raise e => Raise e
  end.

(** ** The column normaliser *)

Module Header.
Import PyStr.

(** The global names of the module: the five [import] statements at
    the top of the file, then the constants and functions it defines
    before the script part runs. *)
Definition module_globals : list string :=
  ["io"; "math"; "pd"; "np"; "st";
   "CUSTOM_CSS"; "PCT_COLS_CANON"; "NUM_COLS_CANON"; "SHARE_COLS_CANON";
   "DELTA_COLS_CANON"; "_clean_col"; "_to_number"; "_coerce_percent";
   "load_anything"; "prep_df"; "fmt_pct"].

(** Resolving a global name at call time. *)
Definition global_name (env : list string) (n : string) : result unit :=
  if existsb (String.eqb n) env then Ok tt else Raise (NameError n).

(** The eight literal [c.replace(...)] calls that follow the regular
    expression, in order. *)
Definition typo_fixes (c : string) : string :=
  let c := replace "Our Conversion Rate " "Our Conversion Rate" c in
  let c := replace "Add to Cart - ASIN Share " "Add to Cart - ASIN Share" c in
  let c := replace "Impressions - ASIN Share" "Impressions - ASIN Share" c in
  let c := replace "Clicks - ASIN Share" "Clicks - ASIN Share" c in
  let c := replace "Purchases - ASIN Share" "Purchases - ASIN Share" c in
  let c := replace "Delta - Impressions to Clicks" "Delta - Impressions to Clicks" c in
  let c := replace "Delta - Clicks to Add to Cart" "Delta - Clicks to Add to Cart" c in
  let c := replace "Delta - Add to Cart to Purchases" "Delta - Add to Cart to Purchases" c in
  c.

(** [_clean_col] run with the global names [env].  A header is [None]
    or the text [str(c)] of the header object. *)
Definition _clean_col_in (env : list string) (c : option string) : result string :=
  match c with
  | None => Ok ""
  | Some c =>
      let c := strip c in
      let c := replace newline " " c in
      rbind (global_name env "re") (fun _ =>
      let c := collapse_ws false c in
      Ok (typo_fixes c))
  end.

(** [_clean_col] as the module runs it. *)
Definition _clean_col : option string -> result string :=
  _clean_col_in module_globals.

(** [[_clean_col(c) for c in df.columns]]: the comprehension stops at
    the first exception. *)
Fixpoint clean_all (cs : list (option string)) : result (list string) :=
  match cs with
  | [] => Ok []
  | c :: cs' =>
      rbind (_clean_col c) (fun c' =>
      rbind (clean_all cs') (fun r => Ok (c' :: r)))
  end.

(** *** Duplicate [Delta] headers (first statements of [prep_df]) *)

(** [[i for i, c in enumerate(cols) if c == "Delta"]], counting
    from [i]. *)
Fixpoint delta_from (i : nat) (cols : list string) : list nat :=
  match cols with
  | [] => []
  | c :: r =>
      if String.eqb c "Delta" then i :: delta_from (S i) r
      else delta_from (S i) r
  end.

Definition delta_idx (cols : list string) : list nat := delta_from 0 cols.

(** [cols[i] = v] for an index inside the list. *)
Fixpoint set_item {A} (i : nat) (v : A) (l : list A) : list A :=
  match l, i with
  | [], _ => []
  | _ :: r, O => v :: r
  | a :: r, S j => a :: set_item j v r
  end.

Definition rename_deltas (cols : list string) : list string :=
  let idx := delta_idx cols in
  if 2 <=? List.length idx then
    let cols := set_item (nth 0 idx 0) "Delta (CR)" cols in
    set_item (nth 1 idx 0) "Delta (CTR)" cols
  else if List.length idx =? 1 then
    set_item (nth 0 idx 0) "Delta (CR)" cols
  else cols.

(** Two header rows that agree on where [k] stands. *)
Definition same_places (k : string) (new old : list string) : Prop :=
  Forall2 (fun a b => String.eqb k a = String.eqb k b) new old.

End Header.

(** ** Floating-point values *)

Module Float.

Local Open Scope R_scope.

Inductive float : Type :=
| Fin (r : R)
| PInf
| NInf
| NaN.

Definition Rltb (x y : R) : bool := if Rlt_dec x y then true else false.
Definition Rleb (x y : R) : bool := if Rle_dec x y then true else false.
Definition Reqb (x y : R) : bool := if Req_dec_T x y then true else false.

(** [pd.isna], [np.isnan] *)
Definition isnan (x : float) : bool :=
  match x with NaN => true | _ => false end.

(** [np.isfinite] *)
Definition isfinite (x : float) : bool :=
  match x with Fin _ => true | _ => false end.

(** [x < y]; every comparison with [nan] is false. *)
Definition fltb (x y : float) : bool :=
  match x, y with
  | NaN, _ | _, NaN => false
  | Fin a, Fin b => Rltb a b
  | Fin _, PInf => true
  | Fin _, NInf => false
  | PInf, _ => false
  | NInf, NInf => false
  | NInf, _ => true
  end.

(** [x <= y] *)
Definition fleb (x y : float) : bool :=
  match x, y with
  | NaN, _ | _, NaN => false
  | Fin a, Fin b => Rleb a b
  | Fin _, PInf => true
  | Fin _, NInf => false
  | PInf, PInf => true
  | PInf, _ => false
  | NInf, _ => true
  end.

(** [x > y] and [x >= y] *)
Definition fgtb (x y : float) : bool := fltb y x.
Definition fgeb (x y : float) : bool := fleb y x.

Definition fopp (x : float) : float :=
  match x with
  | Fin a => Fin (- a)
  | PInf => NInf
  | NInf => PInf
  | NaN => NaN
  end.

Definition fadd (x y : float) : float :=
  match x, y with
  | NaN, _ | _, NaN => NaN
  | Fin a, Fin b => Fin (a + b)
  | PInf, NInf | NInf, PInf => NaN
  | PInf, _ | _, PInf => PInf
  | NInf, _ | _, NInf => NInf
  end.

Definition fsub (x y : float) : float := fadd x (fopp y).

(** An infinity with the sign of [a], or [nan] when [a] is zero. *)
Definition signed_inf (a : R) (pos : float) : float :=
  if Rltb 0 a then pos
  else if Rltb a 0 then fopp pos
  else NaN.

Definition fmul (x y : float) : float :=
  match x, y with
  | NaN, _ | _, NaN => NaN
  | Fin a, Fin b => Fin (a * b)
  | Fin a, PInf | PInf, Fin a => signed_inf a PInf
  | Fin a, NInf | NInf, Fin a => signed_inf a NInf
  | PInf, PInf | NInf, NInf => PInf
  | PInf, NInf | NInf, PInf => NaN
  end.

(** Division as numpy performs it: a finite value over zero is an
    infinity of its sign (or [nan] for zero over zero). *)
Definition fdiv (x y : float) : float :=
  match x, y with
  | NaN, _ | _, NaN => NaN
  | Fin a, Fin b => if Reqb b 0 then signed_inf a PInf else Fin (a / b)
  | Fin _, _ => Fin 0
  | PInf, Fin b => if Rltb b 0 then NInf else PInf
  | NInf, Fin b => if Rltb b 0 then PInf else NInf
  | _, _ => NaN
  end.

(** [np.maximum]: [nan] if either argument is. *)
Definition fmax (x y : float) : float :=
  match x, y with
  | NaN, _ | _, NaN => NaN
  | _, _ => if fleb x y then y else x
  end.

(** [np.log1p] *)
Definition log1p (x : float) : float :=
  match x with
  | Fin a =>
      if Rltb (-1) a then Fin (ln (1 + a))
      else if Reqb a (-1) then NInf
      else NaN
  | PInf => PInf
  | NInf => NaN
  | NaN => NaN
  end.

(** [Series.fillna(v)] on one value. *)
Definition fillna (v x : float) : float :=
  if isnan x then v else x.

(** [Series.clip(lower=lo)] on one value: [nan] stays. *)
Definition clip_lower (lo x : float) : float :=
  if fltb x lo then lo else x.

(** [Series.max()]: the largest value that is not [nan]; [nan] when
    there is none. *)
Fixpoint series_max (l : list float) : float :=
  match l with
  | [] => NaN
  | x :: r =>
      let m := series_max r in
      if isnan x then m
      else if isnan m then x
      else if fltb m x then x else m
  end.

(** Ascending insertion sort of values that are not [nan]. *)
Fixpoint insert (x : float) (l : list float) : list float :=
  match l with
  | [] => [x]
  | y :: r => if fleb x y then x :: l else y :: insert x r
  end.

Fixpoint sort (l : list float) : list float :=
  match l with
  | [] => []
  | x :: r => insert x (sort r)
  end.

(** [np.nanmedian]: [nan] values are ignored; the middle value of the
    rest, or the mean of the two middle values. *)
Definition nanmedian (l : list float) : float :=
  let v := sort (filter (fun x => negb (isnan x)) l) in
  let n := List.length v in
  if (n =? 0)%nat then NaN
  else if Nat.even n
       then fdiv (fadd (nth (n / 2 - 1) v NaN) (nth (n / 2) v NaN)) (Fin 2)
       else nth (n / 2) v NaN.

(** A value that is neither [nan] nor negative. *)
Definition nonneg (x : float) : Prop :=
  match x with
  | Fin r => 0 <= r
  | PInf => True
  | NInf | NaN => False
  end.


(** A value that is missing or at most 1. *)
Definition at_most_one (x : float) : Prop :=
  match x with
  | Fin a => a <= 1
  | PInf => False
  | NInf | NaN => True
  end.

End Float.

(** ** Python's [float(s)] on a string *)

Module PyFloat.
Import PyStr Float.

Definition digit_of (c : ascii) : option Z :=
  let n := nat_of_ascii c in
  if (48 <=? n) && (n <=? 57) then Some (Z.of_nat (n - 48)) else None.

(** The tail of a [digitpart]: [(["_"] digit)*].  Returns the number
    read so far, how many digits it has, and what is left. *)
Fixpoint digits_rest (acc : Z) (cnt : nat) (s : string) : Z * nat * string :=
  match s with
  | EmptyString => (acc, cnt, s)
  | String c r =>
      match digit_of c with
      | Some d => digits_rest (10 * acc + d)%Z (S cnt) r
      | None =>
          if Ascii.eqb c "_"%char then
            match r with
            | String c2 r2 =>
                match digit_of c2 with
                | Some d => digits_rest (10 * acc + d)%Z (S cnt) r2
                | None => (acc, cnt, s)
                end
            | EmptyString => (acc, cnt, s)
            end
          else (acc, cnt, s)
      end
  end.

(** [digitpart ::= digit (["_"] digit)*], continuing the number [acc]. *)
Definition digitpart (acc : Z) (s : string) : option (Z * nat * string) :=
  match s with
  | String c r =>
      match digit_of c with
      | Some d => Some (digits_rest (10 * acc + d)%Z 1 r)
      | None => None
      end
  | EmptyString => None
  end.

(** [number ::= [digitpart] "." digitpart | digitpart ["."]]: the
    digits as one integer, and the count of digits after the point. *)
Definition number (s : string) : option (Z * nat * string) :=
  match digitpart 0 s with
  | Some (ip, _, rest) =>
      match rest with
      | String "."%char rest' =>
          match digitpart ip rest' with
          | Some r => Some r
          | None => Some (ip, 0, rest')
          end
      | _ => Some (ip, 0, rest)
      end
  | None =>
      match s with
      | String "."%char rest' => digitpart 0 rest'
      | _ => None
      end
  end.

(** An optional sign: [true] for minus. *)
Definition sign (s : string) : bool * string :=
  match s with
  | String "-"%char r => (true, r)
  | String "+"%char r => (false, r)
  | _ => (false, s)
  end.

(** [exponent ::= ("e" | "E") [sign] digitpart], to the end of the
    text; an empty text is exponent zero. *)
Definition exponent (s : string) : option Z :=
  match s with
  | EmptyString => Some 0%Z
  | String c r =>
      if Ascii.eqb c "e"%char || Ascii.eqb c "E"%char then
        let (neg, r') := sign r in
        match digitpart 0 r' with
        | Some (e, _, EmptyString) => Some (if neg then (- e)%Z else e)
        | _ => None
        end
      else None
  end.

Definition absfloatvalue (s : string) : option float :=
  let l := lower s in
  if String.eqb l "inf" || String.eqb l "infinity" then Some PInf
  else if String.eqb l "nan" then Some NaN
  else
    match number s with
    | Some (m, k, rest) =>
        match exponent rest with
        | Some e => Some (Fin (IZR m * powerRZ 10 (e - Z.of_nat k)))
        | None => None
        end
    | None => None
    end.

(** [float(s)]: [None] stands for [ValueError]. *)
Definition py_float (s : string) : option float :=
  let (neg, body) := sign (strip s) in
  match absfloatvalue body with
  | Some v => Some (if neg then fopp v else v)
  | None => None
  end.

(** *** Numerals, to state what the reader does on them *)

(** The character of a decimal digit. *)
Definition digit_char (d : nat) : ascii := ascii_of_nat (48 + d).

(** A count as it is written: digits, with thousands separators
    ([None]) anywhere between or around them. *)
Fixpoint written (tokens : list (option nat)) : string :=
  match tokens with
  | [] => EmptyString
  | Some d :: r => String (digit_char d) (written r)
  | None :: r => String ","%char (written r)
  end.

Definition is_digit_token (t : option nat) : Prop :=
  match t with
  | Some d => d < 10
  | None => True
  end.

(** The digits of a written count, and the number they spell after
    the digits [acc]. *)
Fixpoint digits_of (tokens : list (option nat)) : list nat :=
  match tokens with
  | [] => []
  | Some d :: r => d :: digits_of r
  | None :: r => digits_of r
  end.

Fixpoint spelled (acc : Z) (ds : list nat) : Z :=
  match ds with
  | [] => acc
  | d :: r => spelled (10 * acc + Z.of_nat d)%Z r
  end.

End PyFloat.

(** ** Cells and the value coercers *)

Module Coerce.
Import PyStr Float PyFloat.

(** A cell of an object column: a number ([nan] when missing) or a
    string. *)
Inductive cell : Type :=
| CNum (x : float)
| CStr (s : string).

(** [pd.isna(x)] *)
Definition cell_isna (x : cell) : bool :=
  match x with
  | CNum v => isnan v
  | CStr _ => false
  end.

Definition _to_number (x : cell) : float :=
  match x with
  | CNum v => v
  | CStr s0 =>
      let s := strip s0 in
      if String.eqb s "" then NaN
      else if endswith_char "%"%char s then
        match py_float (replace "," "" (drop_last s)) with
        | Some v => fdiv v (Fin 100)
        | None => NaN
        end
      else
        match py_float (replace "," "" s) with
        | Some v => v
        | None => NaN
        end
  end.

(** The column median that decides the scale: [np.nanmedian] when some
    value is finite, [nan] otherwise. *)
Definition percent_median (s : list float) : float :=
  if existsb isfinite s then nanmedian s else NaN.

Definition _coerce_percent (series : list cell) : list float :=
  let s := map _to_number series in
  let med := percent_median s in
  if negb (isnan med) && fgtb med (Fin 1)
  then map (fun v => fdiv v (Fin 100)) s
  else s.


End Coerce.

(** ** Data frames *)

Module Frame.
Import Float Coerce.

Definition series : Type := list cell.

(** A frame: the row labels ([df.index]) and the labelled columns,
    in order. *)
Record frame : Type := mkFrame {
  index : list nat;
  cols : list (string * series)
}.

(** [len(df)] *)
Definition nrows (f : frame) : nat := List.length (index f).

(** [list(df.columns)] *)
Definition labels (f : frame) : list string := map fst (cols f).

(** [c in df.columns] *)
Definition has_col (f : frame) (c : string) : bool :=
  existsb (String.eqb c) (labels f).

Fixpoint assoc (c : string) (l : list (string * series)) : option series :=
  match l with
  | [] => None
  | (k, v) :: r => if String.eqb c k then Some v else assoc c r
  end.

(** [df[c]], when the label is there. *)
Definition getitem (f : frame) (c : string) : option series :=
  assoc c (cols f).

Fixpoint put (c : string) (v : series) (l : list (string * series))
  : list (string * series) :=
  match l with
  | [] => [(c, v)]
  | (k, w) :: r => if String.eqb c k then (k, v) :: r else (k, w) :: put c v r
  end.

(** [df[c] = v]: the column is replaced where it stands, or added
    after the last one. *)
Definition setitem (f : frame) (c : string) (v : series) : frame :=
  mkFrame (index f) (put c v (cols f)).

(** [df.columns = new] *)
Definition set_columns (new : list string) (f : frame) : frame :=
  mkFrame (index f) (combine new (map snd (cols f))).

(** The cell of row [i] in [df.get(c, np.nan)]: [nan] when the column
    is absent. *)
Definition cell_at (f : frame) (c : string) (i : nat) : cell :=
  match getitem f c with
  | Some col => nth i col (CNum NaN)
  | None => CNum NaN
  end.

(** The number held by a cell of a numeric column.  Every column the
    pipeline computes with has been coerced before, so the second case
    is not reached. *)
Definition cell_float (c : cell) : float :=
  match c with
  | CNum x => x
  | CStr _ => NaN
  end.

Definition num_at (f : frame) (c : string) (i : nat) : float :=
  cell_float (cell_at f c i).

(** The whole column [df.get(c, np.nan)] over the index of [df]. *)
Definition column (f : frame) (c : string) : series :=
  map (cell_at f c) (seq 0 (nrows f)).

(** [df[c] = expr], where [expr] is given row by row. *)
Definition assign (f : frame) (c : string) (g : nat -> cell) : frame :=
  setitem f c (map g (seq 0 (nrows f))).

(** [col[mask]] *)
Fixpoint select {A} (mask : list bool) (l : list A) : list A :=
  match mask, l with
  | b :: m, x :: r => if b then x :: select m r else select m r
  | _, _ => []
  end.

(** [df[mask]]: a new frame with the rows whose mask is true; they
    keep their labels. *)
Definition select_rows (mask : list bool) (f : frame) : frame :=
  mkFrame (select mask (index f))
          (map (fun kv => (fst kv, select mask (snd kv))) (cols f)).

(** [df.empty]: no row or no column. *)
Definition empty (f : frame) : bool :=
  (nrows f =? 0) || (List.length (cols f) =? 0).

(** Every column has one cell per row. *)
Definition rect (f : frame) : Prop :=
  Forall (fun kv => List.length (snd kv) = nrows f) (cols f).

(** The column [c] is there and has one cell per row. *)
Definition full (f : frame) (c : string) : Prop :=
  exists col, getitem f c = Some col /\ List.length col = nrows f.

(** A cell that holds a number. *)
Definition is_num (c : cell) : bool :=
  match c with
  | CNum _ => true
  | CStr _ => false
  end.

(** The column [c], when it is there, holds numbers only. *)
Definition numeric (f : frame) (c : string) : Prop :=
  forall col, getitem f c = Some col -> forallb is_num col = true.

(** [f'] has the index of [f] and differs from it at most in the
    columns [names]. *)
Definition writes (names : list string) (f f' : frame) : Prop :=
  index f' = index f
  /\ forall c, ~ In c names -> getitem f' c = getitem f c.

End Frame.

(** ** Loading an uploaded file: [load_anything] *)

Module Loader.
Import PyStr Header Coerce Frame.

(** A table as a pandas reader returns it: the headers are not
    cleaned yet. *)
Record raw_table : Type := mkRaw {
  raw_headers : list (option string);
  raw_index : list nat;
  raw_data : list series
}.

(** An uploaded file, by what the readers make of its content:
    [pd.read_csv], and the sheets of [pd.ExcelFile] by name, in the
    order of [xls.sheet_names].  A workbook has a first sheet. *)
Record upload : Type := mkUpload {
  file_name : string;
  as_csv : raw_table;
  first_sheet : string * raw_table;
  more_sheets : list (string * raw_table)
}.

(** [s.endswith(suffix)] *)
Definition endswith (suffix s : string) : bool :=
  let n := String.length s in
  let k := String.length suffix in
  if n <? k then false
  else String.eqb (substring (n - k) k s) suffix.

Definition MUST_COLS : list string :=
  ["Keyword"; "Purchases: Total Count"; "Clicks: Total Count";
   "Impressions: Total Count"].

Definition OPT_COLS : list string :=
  ["Our Conversion Rate"; "Market Conversion Rate";
   "Our Click Through Rate"; "Market Click Through Rate"].

(** [x in cols] *)
Definition mem (x : string) (cols : list string) : bool :=
  existsb (String.eqb x) cols.

(** The score of one sheet: 3 for each of the four columns it must
    have, 1 for each of the four rates. *)
Definition sheet_score (cols : list string) : Z :=
  let score := 0%Z in
  let score := fold_left (fun s must => if mem must cols then (s + 3)%Z else s)
                         MUST_COLS score in
  fold_left (fun s opt => if mem opt cols then (s + 1)%Z else s)
            OPT_COLS score.

(** The loop over the sheets: the best sheet so far and its score. *)
Fixpoint choose_sheet (sheets : list (string * raw_table))
         (best : option string) (best_score : Z) : result (option string) :=
  match sheets with
  | [] => Ok best
  | (sh, temp) :: rest =>
      rbind (clean_all (raw_headers temp)) (fun cols =>
      let score := sheet_score cols in
      if (best_score <? score)%Z
      then choose_sheet rest (Some sh) score
      else choose_sheet rest best best_score)
  end.

(** [pd.read_excel(xls, sheet_name=best)]: the first sheet of that
    name. *)
Fixpoint sheet_named (sh : string) (sheets : list (string * raw_table))
  : option raw_table :=
  match sheets with
  | [] => None
  | (k, t) :: rest => if String.eqb sh k then Some t else sheet_named sh rest
  end.

(** [df.columns = [_clean_col(c) for c in df.columns]] *)
Definition with_clean_columns (df : raw_table) : result frame :=
  rbind (clean_all (raw_headers df)) (fun cols =>
  Ok (mkFrame (raw_index df) (combine cols (raw_data df)))).

Definition load_anything (uploaded_file : upload) : result frame :=
  let name := lower (file_name uploaded_file) in
  if endswith ".csv" name then
    with_clean_columns (as_csv uploaded_file)
  else
    let sheets := first_sheet uploaded_file :: more_sheets uploaded_file in
    rbind (choose_sheet sheets None (-1)%Z) (fun best =>
    match best with
    | Some sh =>
        match sheet_named sh sheets with
        | Some df => with_clean_columns df
        | None => with_clean_columns (snd (first_sheet uploaded_file))
        end
    | None => with_clean_columns (snd (first_sheet uploaded_file))
    end).

End Loader.

(** ** The pipeline: [prep_df], stage by stage *)

Module Pipeline.
Import PyStr Float Coerce Frame Header.

Definition PCT_COLS_CANON : list string :=
  ["Our Conversion Rate"; "Market Conversion Rate";
   "Our Click Through Rate"; "Market Click Through Rate"].

Definition NUM_COLS_CANON : list string :=
  ["Impressions: ASIN Count"; "Impressions: Total Count";
   "Clicks: ASIN Count"; "Clicks: Total Count";
   "Cart Adds: ASIN Count"; "Cart Adds: Total Count";
   "Purchases: ASIN Count"; "Purchases: Total Count"].

Definition SHARE_COLS_CANON : list string :=
  ["Impressions - ASIN Share"; "Clicks - ASIN Share";
   "Add to Cart - ASIN Share"; "Purchases - ASIN Share"].

Definition FUNNEL_DELTA_COLS : list string :=
  ["Delta - Impressions to Clicks"; "Delta - Clicks to Add to Cart";
   "Delta - Add to Cart to Purchases"].

(** The names the stages after the row filter assign to. *)
Definition derived_names : list string :=
  ["Market_Demand"; "ClickGap"; "ConvGap"; "ShareGap_Clicks";
   "ShareGap_Purchases"; "DemandScore"; "OpportunityScore"; "Bucket";
   "Suggested Action"].

(** Every name a coercion loop may assign to. *)
Definition coerced_names : list string :=
  PCT_COLS_CANON ++ ["Delta (CR)"; "Delta (CTR)"] ++ SHARE_COLS_CANON
  ++ NUM_COLS_CANON ++ FUNNEL_DELTA_COLS.

(** *** Duplicate [Delta] columns *)

Definition fix_delta_columns (f : frame) : frame :=
  let cols := labels f in
  let idx := delta_idx cols in
  if 2 <=? List.length idx then
    let cols := set_item (nth 0 idx 0) "Delta (CR)" cols in
    let cols := set_item (nth 1 idx 0) "Delta (CTR)" cols in
    set_columns cols f
  else if List.length idx =? 1 then
    let cols := set_item (nth 0 idx 0) "Delta (CR)" cols in
    set_columns cols f
  else f.

(** *** Coercion of the recognised columns *)

(** [if c in df.columns: df[c] = g(df[c])] *)
Definition coerce_col (g : series -> list float) (f : frame) (c : string)
  : frame :=
  match getitem f c with
  | Some col => setitem f c (map CNum (g col))
  | None => f
  end.

Definition coerce_columns (f : frame) : frame :=
  let deltas := filter (has_col f) ["Delta (CR)"; "Delta (CTR)"] in
  let f := fold_left (coerce_col _coerce_percent) (PCT_COLS_CANON ++ deltas) f in
  let f := fold_left (coerce_col _coerce_percent) SHARE_COLS_CANON f in
  let f := fold_left (coerce_col (map _to_number)) NUM_COLS_CANON f in
  let f := fold_left (coerce_col _coerce_percent) FUNNEL_DELTA_COLS f in
  f.

Section WithRepr.

(** [repr] of a finite float, as [astype(str)] prints it.  Nothing
    below depends on what it prints. *)
Variable float_repr : R -> string.

(** [str(x)] of a cell. *)
Definition cell_str (c : cell) : string :=
  match c with
  | CStr s => s
  | CNum (Fin r) => float_repr r
  | CNum PInf => "inf"
  | CNum NInf => "-inf"
  | CNum NaN => "nan"
  end.

(** *** The row filter *)

(** [df["Keyword"] = df["Keyword"].astype(str).str.strip()] *)
Definition strip_keyword (f : frame) : frame :=
  assign f "Keyword" (fun i => CStr (strip (cell_str (cell_at f "Keyword" i)))).

(** [Series.ne(s)] on one cell. *)
Definition cell_ne (s : string) (c : cell) : bool :=
  match c with
  | CStr t => negb (String.eqb t s)
  | CNum _ => true
  end.

(** [df["Keyword"].ne("") & df["Keyword"].ne("nan")] *)
Definition keyword_mask (f : frame) : list bool :=
  map (fun c => cell_ne "" c && cell_ne "nan" c) (column f "Keyword").

Definition drop_empty_keywords (f : frame) : frame :=
  if has_col f "Keyword" then
    let f := strip_keyword f in
    select_rows (keyword_mask f) f
  else f.

(** The keyword the filter looks at in row [pos] of the raw table,
    and the test it applies to it. *)
Definition trimmed_keyword (f : frame) (pos : nat) : string :=
  strip (cell_str (cell_at f "Keyword" pos)).

Definition usable (s : string) : bool :=
  negb (String.eqb s "") && negb (String.eqb s "nan").

(** The cell the filter writes for a keyword cell, and its test on
    a written cell. *)
Definition kept_keyword (c : cell) : cell := CStr (strip (cell_str c)).

Definition keeps (c : cell) : bool := cell_ne "" c && cell_ne "nan" c.

(** The mask of the row filter, over the rows of the raw table. *)
Definition row_mask (f : frame) : list bool :=
  map (fun i => usable (trimmed_keyword f i)) (seq 0 (nrows f)).

(** The table that enters the derived-field stages: renamed,
    coerced and filtered. *)
Definition filtered (f : frame) : frame :=
  drop_empty_keywords (coerce_columns (fix_delta_columns f)).

(** *** Derived fields *)

Definition gap (f : frame) (a b : string) (i : nat) : cell :=
  CNum (fsub (num_at f a i) (num_at f b i)).

Definition derived_fields (f : frame) : frame :=
  let f := assign f "Market_Demand" (cell_at f "Impressions: Total Count") in
  let f := if forallb cell_isna (column f "Market_Demand")
           then assign f "Market_Demand" (cell_at f "Clicks: Total Count")
           else f in
  let f := assign f "ClickGap"
             (gap f "Market Click Through Rate" "Our Click Through Rate") in
  let f := assign f "ConvGap"
             (gap f "Market Conversion Rate" "Our Conversion Rate") in
  let f := assign f "ShareGap_Clicks"
             (gap f "Clicks - ASIN Share" "Impressions - ASIN Share") in
  let f := assign f "ShareGap_Purchases"
             (gap f "Purchases - ASIN Share" "Clicks - ASIN Share") in
  f.

(** *** Demand normalisation *)

(** [d = df["Market_Demand"].fillna(0).clip(lower=0)] on one value. *)
Definition demand (x : float) : float :=
  clip_lower (Fin 0) (fillna (Fin 0) x).

(** [np.log1p(d)] on one value of [Market_Demand]. *)
Definition log_demand (x : float) : float := log1p (demand x).

(** The real number [d] stands for when the demand is not [+inf]. *)
Definition demand_value (x : float) : R :=
  match x with
  | Fin a => Rmax a 0
  | _ => 0%R
  end.

Definition normalize_demand (f : frame) : frame :=
  let d := fun i => demand (num_at f "Market_Demand" i) in
  let f := assign f "DemandScore" (fun i => CNum (log1p (d i))) in
  let m := series_max (map cell_float (column f "DemandScore")) in
  if fgtb m (Fin 0)
  then assign f "DemandScore" (fun i => CNum (fdiv (num_at f "DemandScore" i) m))
  else f.

(** The score [normalize_demand] gives row [i], read off a demand
    column [md] of [n] rows: [log1p] of the demand, over the largest
    such value when that is above zero. *)
Definition normalised (md : nat -> float) (n i : nat) : float :=
  let l := fun j => log_demand (md j) in
  let m := series_max (map l (seq 0 n)) in
  if fgtb m (Fin 0) then fdiv (l i) m else l i.

(** *** The opportunity score *)

(** [np.where(pd.isna(x), 0, np.maximum(x, 0))] on one value. *)
Definition pos (x : float) : float :=
  if isnan x then Fin 0 else fmax x (Fin 0).

Definition weighted_sum (ds cg cv sp : float) : float :=
  fadd (fadd (fadd (fmul (Fin 0.55) ds)
                   (fmul (Fin 0.20) (pos cg)))
             (fmul (Fin 0.15) (pos cv)))
       (fmul (Fin 0.10) (pos sp)).

Definition opportunity_score (f : frame) : frame :=
  let f := assign f "OpportunityScore" (fun i =>
             CNum (weighted_sum (num_at f "DemandScore" i)
                                (num_at f "ClickGap" i)
                                (num_at f "ConvGap" i)
                                (num_at f "ShareGap_Purchases" i))) in
  assign f "OpportunityScore" (fun i =>
    CNum (fillna (Fin 0) (num_at f "OpportunityScore" i))).

(** *** Buckets *)

(** [df.loc[mask, c] = label] *)
Definition set_where (f : frame) (c : string) (mask : nat -> bool)
           (label : string) : frame :=
  assign f c (fun i => if mask i then CStr label else cell_at f c i).

Definition ranking_rule (ds imp clk : float) : bool :=
  fgtb ds (Fin 0.55) && fgtb imp (Fin 0) && fltb clk (fmul imp (Fin 0.85)).

Definition conversion_rule (ds clk pur : float) : bool :=
  fgtb ds (Fin 0.35) && fgtb clk (Fin 0) && fltb pur (fmul clk (Fin 0.75)).

Definition ppc_rule (ds pur clk imp : float) : bool :=
  fgtb ds (Fin 0.35) && fgeb pur (fmul clk (Fin 0.95)) && fltb imp (Fin 0.06).

Definition defend_rule (imp pur : float) : bool :=
  fgeb imp (Fin 0.08) && fgeb pur (Fin 0.06).

Definition buckets (f : frame) : frame :=
  let imp_share := num_at f "Impressions - ASIN Share" in
  let clk_share := num_at f "Clicks - ASIN Share" in
  let pur_share := num_at f "Purchases - ASIN Share" in
  let f := assign f "Bucket" (fun _ => CStr "Ignore / Low Signal") in
  let f := set_where f "Bucket"
             (fun i => ranking_rule (num_at f "DemandScore" i)
                                    (imp_share i) (clk_share i))
             "Ranking Opportunity" in
  let f := set_where f "Bucket"
             (fun i => conversion_rule (num_at f "DemandScore" i)
                                       (clk_share i) (pur_share i))
             "Conversion Problem" in
  let f := set_where f "Bucket"
             (fun i => ppc_rule (num_at f "DemandScore" i)
                                (pur_share i) (clk_share i) (imp_share i))
             "PPC Scaling Opportunity" in
  let f := set_where f "Bucket"
             (fun i => defend_rule (imp_share i) (pur_share i))
             "Defend Position" in
  f.

(** The five labels. *)
Definition bucket_labels : list string :=
  ["Ignore / Low Signal"; "Ranking Opportunity"; "Conversion Problem";
   "PPC Scaling Opportunity"; "Defend Position"].

(** The label of the last rule that matches, in the order of the
    cascade; the default when none matches. *)
Definition last_match (ds imp clk pur : float) : string :=
  if defend_rule imp pur then "Defend Position"
  else if ppc_rule ds pur clk imp then "PPC Scaling Opportunity"
  else if conversion_rule ds clk pur then "Conversion Problem"
  else if ranking_rule ds imp clk then "Ranking Opportunity"
  else "Ignore / Low Signal".

(** *** Suggested action *)

Definition is_str (s : string) (c : cell) : bool :=
  match c with
  | CStr t => String.eqb t s
  | CNum _ => false
  end.

Definition action (b : cell) : string :=
  if is_str "Ranking Opportunity" b then
    "Launch/expand Exact + POE rank; validate relevance; tighten top-of-search placements; add to PLO (title/bullets/back-end) if truly core."
  else if is_str "Conversion Problem" b then
    "Fix listing first (main image/value props/price/reviews); then isolate query in Exact to measure; avoid brute-force spend."
  else if is_str "PPC Scaling Opportunity" b then
    "Scale PPC deliberately: raise bids/budgets where CPS holds; broaden match types; add defense targets; watch TACoS."
  else if is_str "Defend Position" b then
    "Defend: maintain Exact + defense; cap waste; monitor share drops weekly."
  else "Ignore for now, or investigate relevance if it keeps appearing.".

Definition suggested_action (f : frame) : frame :=
  assign f "Suggested Action" (fun i => CStr (action (cell_at f "Bucket" i))).

(** *** The table that [prep_df] returns *)

Definition prep_frame (f : frame) : frame :=
  let f := fix_delta_columns f in
  let f := coerce_columns f in
  let f := drop_empty_keywords f in
  let f := derived_fields f in
  let f := normalize_demand f in
  let f := opportunity_score f in
  let f := buckets f in
  let f := suggested_action f in
  f.

(** *** Objects: the heap of frames *)

Definition loc : Type := nat.
Definition heap : Type := list frame.

(** A command on the heap; [None] when it dereferences a location
    that holds no frame. *)
Definition M (A : Type) : Type := heap -> option (A * heap).

Definition ret {A} (a : A) : M A := fun h => Some (a, h).

Definition bind {A B} (m : M A) (k : A -> M B) : M B :=
  fun h => match m h with
           | Some (a, h') => k a h'
           | None => None
           end.

Notation "x <- m ;; k" := (bind m (fun x => k))
  (at level 61, m at next level, right associativity).
Notation "m ;;; k" := (bind m (fun _ => k))
  (at level 61, right associativity).

(** A new object. *)
Definition alloc (f : frame) : M loc :=
  fun h => Some (List.length h, h ++ [f]).

(** Reading through a reference. *)
Definition read {A} (l : loc) (g : frame -> A) : M A :=
  fun h => match nth_error h l with
           | Some f => Some (g f, h)
           | None => None
           end.

(** An in-place update of the object at [l]. *)
Definition mutate (l : loc) (g : frame -> frame) : M unit :=
  fun h => match nth_error h l with
           | Some f => Some (tt, set_item l (g f) h)
           | None => None
           end.

(** [df.copy()] *)
Definition copy (l : loc) : M loc :=
  f <- read l (fun f => f) ;; alloc f.

(** [df[mask]] *)
Definition getitem_mask (l : loc) (mask : list bool) : M loc :=
  f <- read l (select_rows mask) ;; alloc f.

(** [prep_df]: the name [df] is rebound by the copy and by the mask
    selection; every other statement updates the object [df] names. *)
Definition prep_df (df : loc) : M loc :=
  df <- copy df ;;
  mutate df fix_delta_columns ;;;
  mutate df coerce_columns ;;;
  kw <- read df (fun f => has_col f "Keyword") ;;
  df <- (if kw : bool then
           mutate df strip_keyword ;;;
           mask <- read df keyword_mask ;;
           getitem_mask df mask
         else ret df) ;;
  mutate df derived_fields ;;;
  mutate df normalize_demand ;;;
  mutate df opportunity_score ;;;
  mutate df buckets ;;;
  mutate df suggested_action ;;;
  ret df.

(** *** The script around [prep_df] *)

(** What the page shows: the upload prompt, after which the script
    stops, or the dashboard built from the prepared table. *)
Inductive page : Type :=
| UploadPrompt
| Dashboard (df : frame).

(** [if df_raw is None or df_raw.empty: ... st.stop()], then
    [df = prep_df(df_raw)]. *)
Definition script (df_raw : option loc) : M page :=
  match df_raw with
  | None => ret UploadPrompt
  | Some l =>
      e <- read l empty ;;
      if e : bool then ret UploadPrompt
      else
        df <- prep_df l ;;
        f <- read df (fun f => f) ;;
        ret (Dashboard f)
  end.

(** A cell that holds one of the five labels. *)
Definition labelled (c : cell) : Prop :=
  exists l, c = CStr l /\ In l bucket_labels.

(** *** The counters at the top of the page *)

(** [int((df["Bucket"] == label).sum())] *)
Definition bucket_count (df : frame) (label : string) : nat :=
  List.length (filter (is_str label) (column df "Bucket")).

(** [total_terms], [rank_ct], [conv_ct], [scale_ct] *)
Definition kpis (df : frame) : nat * nat * nat * nat :=
  (nrows df,
   bucket_count df "Ranking Opportunity",
   bucket_count df "Conversion Problem",
   bucket_count df "PPC Scaling Opportunity").

End WithRepr.

End Pipeline.

(** ** Sample tables *)

Module Samples.
Import Float Coerce Frame.

(** A printer of finite floats to close the examples with; no sample
    table has a number in its [Keyword] column. *)
Definition sample_repr (r : R) : string := "0.0".

(** One row whose keyword is the text [nan]. *)
Definition nan_keyword : frame :=
  mkFrame [0] [("Keyword", [CStr "nan"]);
               ("Clicks: Total Count", [CNum (Fin 12)])].

(** One row, no [Keyword] column. *)
Definition no_keyword_column : frame :=
  mkFrame [0] [("Clicks: Total Count", [CNum (Fin 12)])].

(** One row whose market-wide impression count is infinite. *)
Definition infinite_demand : frame :=
  mkFrame [0] [("Keyword", [CStr "foo"]);
               ("Impressions: Total Count", [CNum PInf])].

(** The row of the specification's scenario. *)
Definition scenario : frame :=
  mkFrame [0] [("Keyword", [CStr "foo"]);
               ("Impressions: Total Count", [CNum (Fin 999)]);
               ("Our Click Through Rate", [CStr "2%"]);
               ("Market Click Through Rate", [CStr "5%"]);
               ("Impressions - ASIN Share", [CStr "10%"]);
               ("Clicks - ASIN Share", [CStr "6%"])].

(** Two rows, the second with a blank keyword, and a column the
    pipeline does not know. *)
Definition with_note : frame :=
  mkFrame [0; 1] [("Keyword", [CStr "foo"; CStr " "]);
                  ("Note", [CStr "a"; CStr "b"])].

(** An upload taken for CSV, with one header. *)
Definition csv_upload : Loader.upload :=
  Loader.mkUpload "export.CSV"
    (Loader.mkRaw [Some "Keyword"] [0] [[CStr "foo"]])
    ("Sheet1", Loader.mkRaw [] [] []) [].


End Samples.

(** * Properties *)

Import PyStr Header Float PyFloat Coerce Frame Pipeline.

(** ** Comparisons of reals as booleans *)

Section RealTests.

Local Open Scope R_scope.

Lemma Rltb_true (x y : R) : x < y -> Rltb x y = true.
Proof. intros H. unfold Rltb. destruct (Rlt_dec x y); [reflexivity|contradiction]. Qed.

Lemma Rltb_false (x y : R) : y <= x -> Rltb x y = false.
Proof. intros H. unfold Rltb. destruct (Rlt_dec x y); [lra|reflexivity]. Qed.

Lemma Rleb_true (x y : R) : x <= y -> Rleb x y = true.
Proof. intros H. unfold Rleb. destruct (Rle_dec x y); [reflexivity|contradiction]. Qed.

Lemma Rleb_false (x y : R) : y < x -> Rleb x y = false.
Proof. intros H. unfold Rleb. destruct (Rle_dec x y); [lra|reflexivity]. Qed.

Lemma Reqb_false (x y : R) : x <> y -> Reqb x y = false.
Proof. intros H. unfold Reqb. destruct (Req_dec_T x y); [contradiction|reflexivity]. Qed.

Lemma Rltb_spec (x y : R) : Rltb x y = true <-> x < y.
Proof. unfold Rltb. destruct (Rlt_dec x y); split; auto; discriminate. Qed.


End RealTests.

(** ** The column normaliser *)

Section CleanCol.

(** With [re] among the global names the cleaner returns: it trims,
    collapses white space and applies the literal fixes. *)
Lemma clean_col_with_re (env : list string) (s : string) :
  In "re" env ->
  _clean_col_in env (Some s)
  = Ok (typo_fixes (collapse_ws false (replace newline " " (strip s)))).
Proof.
  intros Hin. unfold _clean_col_in, global_name.
  assert (E : existsb (String.eqb "re") env = true).
  { apply existsb_exists. exists "re". split; [exact Hin|apply String.eqb_refl]. }
  now rewrite E.
Qed.

Lemma clean_col_none (env : list string) : _clean_col_in env None = Ok "".
Proof. reflexivity. Qed.

(** C7, as the code runs: the module never imports [re], so for every
    header that is not [None] the call [re.sub] in [_clean_col] raises
    [NameError] instead of returning the cleaned header. *)
Theorem clean_col_raises_name_error (s : string) :
  _clean_col (Some s) = Raise (NameError "re").
Proof. reflexivity. Qed.

(** The comprehension over the headers fails as soon as one header is
    not [None]. *)
Lemma clean_all_raises (s : string) (cs : list (option string)) :
  clean_all (Some s :: cs) = Raise (NameError "re").
Proof. reflexivity. Qed.

End CleanCol.

(** ** Duplicate [Delta] headers *)

Section DeltaHeaders.

Lemma delta_from_skip (pre l : list string) (i : nat) :
  ~ In "Delta" pre ->
  delta_from i (pre ++ l) = delta_from (i + List.length pre) l.
Proof.
  revert i. induction pre as [|c pre IH]; intros i Hn; simpl.
  - now rewrite Nat.add_0_r.
  - destruct (String.eqb_spec c "Delta") as [->|_].
    + exfalso. apply Hn. now left.
    + rewrite IH.
      * f_equal. lia.
      * intros H. apply Hn. now right.
Qed.

Lemma delta_from_none (l : list string) (i : nat) :
  ~ In "Delta" l -> delta_from i l = [].
Proof.
  intros Hn.
  rewrite <- (app_nil_r l). now rewrite delta_from_skip.
Qed.

Lemma set_item_middle {A} (pre post : list A) (x v : A) :
  set_item (List.length pre) v (pre ++ x :: post) = pre ++ v :: post.
Proof. induction pre as [|a pre IH]; simpl; [reflexivity|now rewrite IH]. Qed.

Lemma set_item_length {A} (l : list A) (i : nat) (v : A) :
  List.length (set_item i v l) = List.length l.
Proof.
  revert i. induction l as [|a l IH]; intros [|i]; simpl; auto.
Qed.

Lemma rename_deltas_length (cols : list string) :
  List.length (rename_deltas cols) = List.length cols.
Proof.
  unfold rename_deltas.
  destruct (2 <=? _); [|destruct (_ =? 1)];
    now rewrite ?set_item_length.
Qed.

Lemma rename_deltas_none (cols : list string) :
  ~ In "Delta" cols -> rename_deltas cols = cols.
Proof.
  intros Hn. unfold rename_deltas, delta_idx.
  now rewrite delta_from_none.
Qed.

Lemma rename_deltas_one (pre post : list string) :
  ~ In "Delta" pre -> ~ In "Delta" post ->
  rename_deltas (pre ++ "Delta" :: post) = pre ++ "Delta (CR)" :: post.
Proof.
  intros Hpre Hpost.
  unfold rename_deltas, delta_idx.
  rewrite delta_from_skip by assumption. cbn -[set_item].
  rewrite delta_from_none by assumption. cbn -[set_item].
  apply set_item_middle.
Qed.

Lemma rename_deltas_two (pre mid post : list string) :
  ~ In "Delta" pre -> ~ In "Delta" mid ->
  rename_deltas (pre ++ "Delta" :: mid ++ "Delta" :: post)
  = pre ++ "Delta (CR)" :: mid ++ "Delta (CTR)" :: post.
Proof.
  intros Hpre Hmid.
  unfold rename_deltas, delta_idx.
  rewrite delta_from_skip by assumption. cbn -[set_item].
  rewrite delta_from_skip by assumption. cbn -[set_item].
  rewrite set_item_middle.
  replace (S (List.length pre + List.length mid))
    with (List.length (pre ++ "Delta (CR)" :: mid))
    by (rewrite length_app; simpl; lia).
  change (pre ++ "Delta (CR)" :: mid ++ "Delta" :: post)
    with (pre ++ ("Delta (CR)" :: mid) ++ "Delta" :: post).
  rewrite app_assoc, set_item_middle, <- app_assoc.
  reflexivity.
Qed.

(** A header row has no [Delta], exactly one, or a first and a second
    one. *)
Lemma delta_split (cols : list string) :
  ~ In "Delta" cols
  \/ (exists pre post,
        cols = pre ++ "Delta" :: post
        /\ ~ In "Delta" pre /\ ~ In "Delta" post)
  \/ (exists pre mid post,
        cols = pre ++ "Delta" :: mid ++ "Delta" :: post
        /\ ~ In "Delta" pre /\ ~ In "Delta" mid).
Proof.
  induction cols as [|c cols IH].
  - left. intros [].
  - destruct (string_dec c "Delta") as [->|Hc].
    + destruct IH as [H0|[(pre & post & -> & Hp & Hq)
                         |(pre & mid & post & -> & Hp & Hm)]].
      * right. left. exists [], cols. repeat split; auto.
      * right. right. exists [], pre, post. repeat split; auto.
      * right. right. exists [], pre, (mid ++ "Delta" :: post).
        repeat split; auto.
    + assert (Hcons : forall l, ~ In "Delta" l -> ~ In "Delta" (c :: l)).
      { intros l Hl [E|E]; [now apply Hc|now apply Hl]. }
      destruct IH as [H0|[(pre & post & -> & Hp & Hq)
                         |(pre & mid & post & -> & Hp & Hm)]].
      * left. auto.
      * right. left. exists (c :: pre), post. repeat split; auto.
      * right. right. exists (c :: pre), mid, post. repeat split; auto.
Qed.

(** C4, as the code has it: with no [Delta] header nothing changes;
    a single one becomes [Delta (CR)]; as soon as there are two, the
    first becomes [Delta (CR)] and the second [Delta (CTR)], and every
    header after the second, a further [Delta] included, stays. *)
Theorem rename_deltas_by_position (cols : list string) :
  (~ In "Delta" cols -> rename_deltas cols = cols)
  /\ (forall pre post,
        cols = pre ++ "Delta" :: post ->
        ~ In "Delta" pre -> ~ In "Delta" post ->
        rename_deltas cols = pre ++ "Delta (CR)" :: post)
  /\ (forall pre mid post,
        cols = pre ++ "Delta" :: mid ++ "Delta" :: post ->
        ~ In "Delta" pre -> ~ In "Delta" mid ->
        rename_deltas cols
        = pre ++ "Delta (CR)" :: mid ++ "Delta (CTR)" :: post).
Proof.
  split; [|split].
  - apply rename_deltas_none.
  - intros pre post ->. apply rename_deltas_one.
  - intros pre mid post ->. apply rename_deltas_two.
Qed.

End DeltaHeaders.

(** The three-[Delta] header row of the counterexample. *)
Lemma rename_deltas_by_position_witness :
  rename_deltas ["Keyword"; "Delta"; "Clicks"; "Delta"; "Delta"]
  = ["Keyword"; "Delta (CR)"; "Clicks"; "Delta (CTR)"; "Delta"].
Proof.
  apply (proj2 (proj2 (rename_deltas_by_position
                         ["Keyword"; "Delta"; "Clicks"; "Delta"; "Delta"]))
           ["Keyword"] ["Clicks"] ["Delta"]).
  - reflexivity.
  - simpl. intros [H|[]]. discriminate H.
  - simpl. intros [H|[]]. discriminate H.
Defined.

(** C4 as stated fails: with three [Delta] headers the claim leaves the
    row unchanged, the code renames the first two. *)
Lemma rename_deltas_three_changed :
  List.length (delta_idx ["Delta"; "Delta"; "Delta"]) = 3
  /\ rename_deltas ["Delta"; "Delta"; "Delta"] <> ["Delta"; "Delta"; "Delta"].
Proof. split; [reflexivity|discriminate]. Qed.

(** ** Frames: lookup after assignment *)

Section FrameAlgebra.

Lemma assoc_put_eq (c : string) (v : series) (l : list (string * series)) :
  assoc c (put c v l) = Some v.
Proof.
  induction l as [|[k w] l IH]; simpl.
  - now rewrite String.eqb_refl.
  - destruct (String.eqb c k) eqn:E; simpl; rewrite E; auto.
Qed.

Lemma assoc_put_ne (c c' : string) (v : series) (l : list (string * series)) :
  String.eqb c' c = false ->
  assoc c' (put c v l) = assoc c' l.
Proof.
  intros Hne. induction l as [|[k w] l IH]; simpl.
  - now rewrite Hne.
  - destruct (String.eqb c k) eqn:E; simpl.
    + apply String.eqb_eq in E. subst k. now rewrite Hne.
    + now rewrite IH.
Qed.

Lemma getitem_setitem_eq (f : frame) (c : string) (v : series) :
  getitem (setitem f c v) c = Some v.
Proof. apply assoc_put_eq. Qed.

Lemma getitem_setitem_ne (f : frame) (c c' : string) (v : series) :
  String.eqb c' c = false ->
  getitem (setitem f c v) c' = getitem f c'.
Proof. apply assoc_put_ne. Qed.

Lemma nrows_length (f : frame) : nrows f = List.length (index f).
Proof. reflexivity. Qed.

Lemma nrows_setitem (f : frame) (c : string) (v : series) :
  nrows (setitem f c v) = nrows f.
Proof. reflexivity. Qed.

Lemma nrows_assign (f : frame) (c : string) (g : nat -> cell) :
  nrows (assign f c g) = nrows f.
Proof. reflexivity. Qed.


Lemma nth_tabulate {A} (g : nat -> A) (n i : nat) (d : A) :
  i < n -> nth i (map g (seq 0 n)) d = g i.
Proof.
  intros Hi.
  rewrite (nth_indep _ d (g 0)) by (now rewrite length_map, length_seq).
  rewrite (map_nth g (seq 0 n) 0 i).
  now rewrite seq_nth.
Qed.

Lemma cell_at_assign_eq (f : frame) (c : string) (g : nat -> cell) (i : nat) :
  i < nrows f -> cell_at (assign f c g) c i = g i.
Proof.
  intros Hi. unfold cell_at, assign.
  rewrite getitem_setitem_eq. now apply nth_tabulate.
Qed.

Lemma cell_at_assign_ne (f : frame) (c c' : string) (g : nat -> cell) (i : nat) :
  String.eqb c' c = false ->
  cell_at (assign f c g) c' i = cell_at f c' i.
Proof.
  intros Hne. unfold cell_at, assign.
  now rewrite getitem_setitem_ne.
Qed.

Lemma num_at_assign_eq (f : frame) (c : string) (g : nat -> cell) (i : nat) :
  i < nrows f -> num_at (assign f c g) c i = cell_float (g i).
Proof. intros Hi. unfold num_at. now rewrite cell_at_assign_eq. Qed.

Lemma num_at_assign_ne (f : frame) (c c' : string) (g : nat -> cell) (i : nat) :
  String.eqb c' c = false ->
  num_at (assign f c g) c' i = num_at f c' i.
Proof. intros Hne. unfold num_at. now rewrite cell_at_assign_ne. Qed.

Lemma column_assign_eq (f : frame) (c : string) (g : nat -> cell) :
  column (assign f c g) c = map g (seq 0 (nrows f)).
Proof.
  unfold column. rewrite nrows_assign.
  apply map_ext_in. intros i Hi. apply in_seq in Hi.
  apply cell_at_assign_eq. lia.
Qed.

Lemma length_column (f : frame) (c : string) :
  List.length (column f c) = nrows f.
Proof. unfold column. now rewrite length_map, length_seq. Qed.

End FrameAlgebra.

(** ** The heap: what a run of [prep_df] allocates and leaves alone *)

Section HeapRun.

Variable float_repr : R -> string.

Lemma nth_error_snoc (h : heap) (f : frame) :
  nth_error (h ++ [f]) (List.length h) = Some f.
Proof. rewrite nth_error_app2, Nat.sub_diag by lia. reflexivity. Qed.

Lemma set_item_snoc (h : heap) (f g : frame) :
  set_item (List.length h) g (h ++ [f]) = h ++ [g].
Proof. apply set_item_middle. Qed.

Lemma mutate_snoc (h : heap) (f : frame) (g : frame -> frame) :
  mutate (List.length h) g (h ++ [f]) = Some (tt, h ++ [g f]).
Proof. unfold mutate. now rewrite nth_error_snoc, set_item_snoc. Qed.

Lemma read_snoc {A} (h : heap) (f : frame) (g : frame -> A) :
  read (List.length h) g (h ++ [f]) = Some (g f, h ++ [f]).
Proof. unfold read. now rewrite nth_error_snoc. Qed.

Lemma bind_some {A B} (m : M A) (k : A -> M B) (h h' : heap) (a : A) :
  m h = Some (a, h') -> bind m k h = k a h'.
Proof. intros E. unfold bind. now rewrite E. Qed.

Lemma copy_run (h : heap) (l : loc) (f : frame) :
  nth_error h l = Some f -> copy l h = Some (List.length h, h ++ [f]).
Proof. intros Hl. unfold copy, bind, read, alloc. now rewrite Hl. Qed.

Lemma getitem_mask_snoc (h : heap) (f : frame) (mask : list bool) :
  getitem_mask (List.length h) mask (h ++ [f])
  = Some (List.length (h ++ [f]), (h ++ [f]) ++ [select_rows mask f]).
Proof. unfold getitem_mask, bind, alloc. now rewrite read_snoc. Qed.

(** The statements after the row filter, run on the object at the end
    of the heap. *)
Lemma finish_snoc (h : heap) (g : frame) :
  bind (mutate (List.length h) derived_fields) (fun _ =>
  bind (mutate (List.length h) normalize_demand) (fun _ =>
  bind (mutate (List.length h) opportunity_score) (fun _ =>
  bind (mutate (List.length h) buckets) (fun _ =>
  bind (mutate (List.length h) suggested_action) (fun _ =>
  ret (List.length h)))))) (h ++ [g])
  = Some (List.length h,
          h ++ [suggested_action (buckets (opportunity_score
                  (normalize_demand (derived_fields g))))]).
Proof.
  rewrite (bind_some _ _ _ _ _ (mutate_snoc h g derived_fields)).
  rewrite (bind_some _ _ _ _ _ (mutate_snoc h _ normalize_demand)).
  rewrite (bind_some _ _ _ _ _ (mutate_snoc h _ opportunity_score)).
  rewrite (bind_some _ _ _ _ _ (mutate_snoc h _ buckets)).
  rewrite (bind_some _ _ _ _ _ (mutate_snoc h _ suggested_action)).
  reflexivity.
Qed.

Lemma prep_df_run (h : heap) (l : loc) (f : frame) :
  nth_error h l = Some f ->
  exists (r : loc) (fresh : list frame),
    prep_df float_repr l h = Some (r, h ++ fresh)
    /\ nth_error (h ++ fresh) r = Some (prep_frame float_repr f)
    /\ List.length h <= r.
Proof.
  intros Hl.
  pose (g := coerce_columns (fix_delta_columns f)).
  assert (E : prep_df float_repr l h
              = if has_col g "Keyword"
                then Some (List.length (h ++ [strip_keyword float_repr g]),
                           (h ++ [strip_keyword float_repr g])
                           ++ [prep_frame float_repr f])
                else Some (List.length h, h ++ [prep_frame float_repr f])).
  { unfold prep_df.
    rewrite (bind_some _ _ _ _ _ (copy_run h l f Hl)).
    rewrite (bind_some _ _ _ _ _ (mutate_snoc h f fix_delta_columns)).
    rewrite (bind_some _ _ _ _ _ (mutate_snoc h _ coerce_columns)).
    rewrite (bind_some _ _ _ _ _
               (read_snoc h _ (fun f => has_col f "Keyword"))).
    fold g. unfold prep_frame, drop_empty_keywords. fold g.
    destruct (has_col g "Keyword").
    - rewrite (bind_some _ _ _
                 ((h ++ [strip_keyword float_repr g])
                  ++ [select_rows (keyword_mask (strip_keyword float_repr g))
                        (strip_keyword float_repr g)])
                 (List.length (h ++ [strip_keyword float_repr g]))).
      + apply finish_snoc.
      + rewrite (bind_some _ _ _ _ _ (mutate_snoc h g (strip_keyword float_repr))).
        rewrite (bind_some _ _ _ _ _ (read_snoc h _ keyword_mask)).
        apply getitem_mask_snoc.
    - rewrite (bind_some _ _ _ (h ++ [g]) (List.length h)) by reflexivity.
      apply finish_snoc. }
  destruct (has_col g "Keyword").
  - exists (List.length (h ++ [strip_keyword float_repr g])),
      [strip_keyword float_repr g; prep_frame float_repr f].
    replace (h ++ [strip_keyword float_repr g; prep_frame float_repr f])
      with ((h ++ [strip_keyword float_repr g]) ++ [prep_frame float_repr f])
      by (now rewrite <- app_assoc).
    split; [exact E|]. split.
    + apply nth_error_snoc.
    + rewrite length_app. lia.
  - exists (List.length h), [prep_frame float_repr f].
    split; [exact E|]. split.
    + apply nth_error_snoc.
    + lia.
Qed.
(** C10: [prep_df] copies before it changes anything.  After the call
    every object that existed before, the caller's table among them,
    is what it was; the enriched table is a new object. *)
Theorem prep_df_leaves_input (h : heap) (l : loc) (f : frame) :
  nth_error h l = Some f ->
  exists (r : loc) (h' : heap),
    prep_df float_repr l h = Some (r, h')
    /\ nth_error h' l = Some f
    /\ (forall l', l' < List.length h -> nth_error h' l' = nth_error h l')
    /\ List.length h <= r
    /\ nth_error h' r = Some (prep_frame float_repr f).
Proof.
  intros Hl.
  destruct (prep_df_run h l f Hl) as (r & fresh & Hrun & Hr & Hfresh).
  exists r, (h ++ fresh).
  assert (Hold : forall l', l' < List.length h ->
                   nth_error (h ++ fresh) l' = nth_error h l').
  { intros l' Hlt. now apply nth_error_app1. }
  repeat split; auto.
  rewrite Hold; [exact Hl|].
  apply nth_error_Some. now rewrite Hl.
Qed.

(** C9: two runs on the same input give the same table, cell for
    cell, the second run starting from the heap the first one left. *)
Theorem prep_df_twice_same (h : heap) (l : loc) (f : frame) :
  nth_error h l = Some f ->
  exists (r1 r2 : loc) (h1 h2 : heap) (out : frame),
    prep_df float_repr l h = Some (r1, h1)
    /\ prep_df float_repr l h1 = Some (r2, h2)
    /\ nth_error h1 r1 = Some out
    /\ nth_error h2 r2 = Some out.
Proof.
  intros Hl.
  destruct (prep_df_run h l f Hl) as (r1 & fresh1 & Hrun1 & Hr1 & _).
  assert (Hl1 : nth_error (h ++ fresh1) l = Some f).
  { rewrite nth_error_app1; [exact Hl|].
    apply nth_error_Some. now rewrite Hl. }
  destruct (prep_df_run (h ++ fresh1) l f Hl1) as (r2 & fresh2 & Hrun2 & Hr2 & _).
  exists r1, r2, (h ++ fresh1), ((h ++ fresh1) ++ fresh2), (prep_frame float_repr f).
  auto.
Qed.

End HeapRun.

(** ** The percent heuristic *)

Section PercentHeuristic.






End PercentHeuristic.

Lemma fdiv_fin_100 (a : R) : fdiv (Fin a) (Fin 100) = Fin (a / 100).
Proof.
  unfold fdiv, Reqb. destruct (Req_dec_T 100 0) as [E|_]; [lra|reflexivity].
Qed.



(** ** The stages keep the index *)

Section StageIndex.

Variable float_repr : R -> string.

Lemma index_coerce_col (g : series -> list float) (f : frame) (c : string) :
  index (coerce_col g f c) = index f.
Proof. unfold coerce_col. now destruct (getitem f c). Qed.

Lemma index_fold_coerce (g : series -> list float) (cs : list string) (f : frame) :
  index (fold_left (coerce_col g) cs f) = index f.
Proof.
  revert f. induction cs as [|c cs IH]; intros f; simpl; [reflexivity|].
  now rewrite IH, index_coerce_col.
Qed.

Lemma index_coerce_columns (f : frame) : index (coerce_columns f) = index f.
Proof. unfold coerce_columns. now rewrite !index_fold_coerce. Qed.

Lemma index_fix_delta_columns (f : frame) :
  index (fix_delta_columns f) = index f.
Proof.
  unfold fix_delta_columns.
  destruct (2 <=? _); [reflexivity|]. now destruct (_ =? 1).
Qed.

Lemma index_derived_fields (f : frame) : index (derived_fields f) = index f.
Proof. unfold derived_fields. now destruct (forallb _ _). Qed.

Lemma index_normalize_demand (f : frame) :
  index (normalize_demand f) = index f.
Proof. unfold normalize_demand. now destruct (fgtb _ _). Qed.

Lemma index_opportunity_score (f : frame) :
  index (opportunity_score f) = index f.
Proof. reflexivity. Qed.

Lemma index_buckets (f : frame) : index (buckets f) = index f.
Proof. reflexivity. Qed.

Lemma index_suggested_action (f : frame) :
  index (suggested_action f) = index f.
Proof. reflexivity. Qed.

Lemma nrows_derived_fields (f : frame) : nrows (derived_fields f) = nrows f.
Proof. now rewrite !nrows_length, index_derived_fields. Qed.

Lemma nrows_normalize_demand (f : frame) :
  nrows (normalize_demand f) = nrows f.
Proof. now rewrite !nrows_length, index_normalize_demand. Qed.

Lemma nrows_opportunity_score (f : frame) :
  nrows (opportunity_score f) = nrows f.
Proof. now rewrite !nrows_length, index_opportunity_score. Qed.

Lemma nrows_buckets (f : frame) : nrows (buckets f) = nrows f.
Proof. now rewrite !nrows_length, index_buckets. Qed.

Lemma prep_frame_stages (f : frame) :
  prep_frame float_repr f
  = suggested_action (buckets (opportunity_score
      (normalize_demand (derived_fields (filtered float_repr f))))).
Proof. unfold prep_frame, filtered. reflexivity. Qed.

Lemma index_prep_frame (f : frame) :
  index (prep_frame float_repr f) = index (filtered float_repr f).
Proof.
  rewrite prep_frame_stages.
  now rewrite index_suggested_action, index_buckets, index_opportunity_score,
    index_normalize_demand, index_derived_fields.
Qed.

Lemma nrows_prep_frame (f : frame) :
  nrows (prep_frame float_repr f) = nrows (filtered float_repr f).
Proof. now rewrite !nrows_length, index_prep_frame. Qed.

(** The script on a raw table that is not empty: [prep_df] returns
    and the dashboard is built from its table. *)
Lemma script_run (h : heap) (l : loc) (f : frame) :
  nth_error h l = Some f ->
  empty f = false ->
  exists h',
    script float_repr (Some l) h
    = Some (Dashboard (prep_frame float_repr f), h').
Proof.
  intros Hl He.
  destruct (prep_df_run float_repr h l f Hl) as (r & fresh & Hrun & Hr & _).
  exists (h ++ fresh).
  unfold script. unfold bind at 1. unfold read at 1. rewrite Hl, He.
  unfold bind at 1. rewrite Hrun.
  unfold bind, read, ret. now rewrite Hr.
Qed.

(** C8, as the code has it: the only stop is the guard of the script,
    taken when there is no raw table or the raw table is empty.  In
    every other case [prep_df] returns and the dashboard is built from
    its table, which has as many rows as pass the row filter. *)
Theorem script_stops_only_on_empty_input (h : heap) (l : loc) (f : frame) :
  nth_error h l = Some f ->
  script float_repr None h = Some (UploadPrompt, h)
  /\ (empty f = true ->
        script float_repr (Some l) h = Some (UploadPrompt, h))
  /\ (empty f = false ->
        exists h',
          script float_repr (Some l) h
          = Some (Dashboard (prep_frame float_repr f), h')
          /\ nrows (prep_frame float_repr f) = nrows (filtered float_repr f)).
Proof.
  intros Hl. split; [reflexivity|]. split.
  - intros He. unfold script, bind, read. now rewrite Hl, He.
  - intros He.
    destruct (script_run h l f Hl He) as (h' & Hs).
    exists h'. split; [exact Hs|apply nrows_prep_frame].
Qed.

End StageIndex.

Lemma prep_df_leaves_input_witness :
  exists (r : loc) (h' : heap),
    prep_df Samples.sample_repr 0 [Samples.scenario] = Some (r, h')
    /\ nth_error h' 0 = Some Samples.scenario
    /\ (forall l', l' < 1 -> nth_error h' l' = nth_error [Samples.scenario] l')
    /\ 1 <= r
    /\ nth_error h' r = Some (prep_frame Samples.sample_repr Samples.scenario).
Proof.
  apply (prep_df_leaves_input Samples.sample_repr [Samples.scenario] 0
           Samples.scenario).
  reflexivity.
Defined.

Lemma prep_df_twice_same_witness :
  exists (r1 r2 : loc) (h1 h2 : heap) (out : frame),
    prep_df Samples.sample_repr 0 [Samples.scenario] = Some (r1, h1)
    /\ prep_df Samples.sample_repr 0 h1 = Some (r2, h2)
    /\ nth_error h1 r1 = Some out
    /\ nth_error h2 r2 = Some out.
Proof.
  apply (prep_df_twice_same Samples.sample_repr [Samples.scenario] 0
           Samples.scenario).
  reflexivity.
Defined.

Lemma script_stops_only_on_empty_input_witness :
  exists h',
    script Samples.sample_repr (Some 0) [Samples.nan_keyword]
    = Some (Dashboard (prep_frame Samples.sample_repr Samples.nan_keyword), h')
    /\ nrows (prep_frame Samples.sample_repr Samples.nan_keyword)
       = nrows (filtered Samples.sample_repr Samples.nan_keyword).
Proof.
  apply (script_stops_only_on_empty_input Samples.sample_repr
           [Samples.nan_keyword] 0 Samples.nan_keyword).
  - reflexivity.
  - reflexivity.
Defined.

(** C8 as stated fails: the only row is dropped by the row filter, and
    the script still builds the dashboard, from a table of no rows. *)
Lemma script_renders_empty_table :
  nrows (filtered Samples.sample_repr Samples.nan_keyword) = 0
  /\ exists (out : frame) (h' : heap),
       script Samples.sample_repr (Some 0) [Samples.nan_keyword]
       = Some (Dashboard out, h')
       /\ nrows out = 0.
Proof.
  split; [reflexivity|].
  destruct (script_run Samples.sample_repr [Samples.nan_keyword] 0
              Samples.nan_keyword eq_refl eq_refl) as (h' & Hs).
  exists (prep_frame Samples.sample_repr Samples.nan_keyword), h'.
  split; [exact Hs|]. rewrite nrows_prep_frame. reflexivity.
Qed.

(** ** Columns that a stage does not write *)

Section Untouched.

Variable float_repr : R -> string.

Lemma writes_refl (names : list string) (f : frame) : writes names f f.
Proof. split; auto. Qed.

Lemma writes_trans (names : list string) (f g k : frame) :
  writes names f g -> writes names g k -> writes names f k.
Proof.
  intros [I1 G1] [I2 G2]. split.
  - now rewrite I2.
  - intros c Hc. now rewrite G2, G1.
Qed.

Lemma writes_setitem (names : list string) (f : frame) (c : string) (v : series) :
  In c names -> writes names f (setitem f c v).
Proof.
  intros Hin. split; [reflexivity|].
  intros c' Hc'. apply getitem_setitem_ne.
  apply String.eqb_neq. intros ->. now apply Hc'.
Qed.

Lemma writes_assign (names : list string) (f : frame) (c : string) (g : nat -> cell) :
  In c names -> writes names f (assign f c g).
Proof. apply writes_setitem. Qed.

Lemma writes_cell_at (names : list string) (f f' : frame) (c : string) (i : nat) :
  writes names f f' -> ~ In c names -> cell_at f' c i = cell_at f c i.
Proof. intros [_ G] Hc. unfold cell_at. now rewrite G. Qed.

Ltac in_names := unfold derived_names; simpl; tauto.

Ltac writes_chain :=
  repeat (eapply writes_trans; [|apply writes_assign; in_names]);
  try apply writes_refl.

Lemma writes_derived_fields (f : frame) :
  writes derived_names f (derived_fields f).
Proof.
  unfold derived_fields. writes_chain.
  destruct (forallb _ _); writes_chain.
Qed.

Lemma writes_normalize_demand (f : frame) :
  writes derived_names f (normalize_demand f).
Proof. unfold normalize_demand. destruct (fgtb _ _); writes_chain. Qed.

Lemma writes_opportunity_score (f : frame) :
  writes derived_names f (opportunity_score f).
Proof. unfold opportunity_score. writes_chain. Qed.

Lemma writes_buckets (f : frame) : writes derived_names f (buckets f).
Proof. unfold buckets, set_where. writes_chain. Qed.

Lemma writes_suggested_action (f : frame) :
  writes derived_names f (suggested_action f).
Proof. apply writes_assign; in_names. Qed.

(** After the row filter only the derived columns are written: every
    other column of the filtered table reaches the output as it is. *)
Lemma writes_prep_frame (f : frame) :
  writes derived_names (filtered float_repr f) (prep_frame float_repr f).
Proof.
  rewrite prep_frame_stages.
  eapply writes_trans; [|apply writes_suggested_action].
  eapply writes_trans; [|apply writes_buckets].
  eapply writes_trans; [|apply writes_opportunity_score].
  eapply writes_trans; [|apply writes_normalize_demand].
  apply writes_derived_fields.
Qed.

End Untouched.

(** ** The [Keyword] column before the row filter *)

Section KeywordUntouched.

Lemma has_col_getitem (f : frame) (c : string) :
  has_col f c = match getitem f c with Some _ => true | None => false end.
Proof.
  unfold has_col, getitem, labels.
  induction (cols f) as [|[k v] l IH]; simpl; [reflexivity|].
  destruct (String.eqb c k); auto.
Qed.

Lemma writes_coerce_col (g : series -> list float) (f : frame) (c : string) :
  In c coerced_names -> writes coerced_names f (coerce_col g f c).
Proof.
  intros Hin. unfold coerce_col. destruct (getitem f c).
  - now apply writes_setitem.
  - apply writes_refl.
Qed.

Lemma writes_fold_coerce (g : series -> list float) (cs : list string) (f : frame) :
  (forall c, In c cs -> In c coerced_names) ->
  writes coerced_names f (fold_left (coerce_col g) cs f).
Proof.
  revert f. induction cs as [|c cs IH]; intros f Hcs; simpl.
  - apply writes_refl.
  - eapply writes_trans.
    + apply writes_coerce_col. apply Hcs. now left.
    + apply IH. intros c' Hc'. apply Hcs. now right.
Qed.

(** The coercion loops write recognised columns only. *)
Lemma writes_coerce_columns (f : frame) :
  writes coerced_names f (coerce_columns f).
Proof.
  unfold coerce_columns.
  eapply writes_trans; [eapply writes_trans; [eapply writes_trans|]|];
    apply writes_fold_coerce; intros c Hc.
  - apply in_app_or in Hc. destruct Hc as [Hc|Hc].
    + unfold coerced_names. apply in_or_app. now left.
    + apply filter_In in Hc. destruct Hc as [Hc _].
      unfold coerced_names. apply in_or_app. right.
      apply in_or_app. now left.
  - unfold coerced_names. do 2 (apply in_or_app; right).
    apply in_or_app. now left.
  - unfold coerced_names. do 3 (apply in_or_app; right).
    apply in_or_app. now left.
  - unfold coerced_names. do 4 (apply in_or_app; right). exact Hc.
Qed.

Lemma combine_fst_snd {A B} (l : list (A * B)) :
  combine (map fst l) (map snd l) = l.
Proof. induction l as [|[a b] l IH]; simpl; [reflexivity|now rewrite IH]. Qed.

(** The block is one assignment to [df.columns]. *)
Lemma fix_delta_columns_set (f : frame) :
  fix_delta_columns f = set_columns (rename_deltas (labels f)) f.
Proof.
  unfold fix_delta_columns, rename_deltas.
  destruct (2 <=? _); [reflexivity|].
  destruct (_ =? 1); [reflexivity|].
  destruct f as [idx cs]. unfold set_columns, labels. simpl.
  now rewrite combine_fst_snd.
Qed.

Lemma same_places_refl (k : string) (l : list string) : same_places k l l.
Proof. induction l; constructor; auto. Qed.

Lemma rename_deltas_same_places (k : string) (cols : list string) :
  k <> "Delta" -> k <> "Delta (CR)" -> k <> "Delta (CTR)" ->
  same_places k (rename_deltas cols) cols.
Proof.
  intros H0 H1 H2.
  apply String.eqb_neq in H0, H1, H2.
  destruct (delta_split cols) as [Hn|[(pre & post & -> & Hp & Hq)
                                    |(pre & mid & post & -> & Hp & Hm)]].
  - rewrite rename_deltas_none by assumption. apply same_places_refl.
  - rewrite rename_deltas_one by assumption.
    apply Forall2_app; [apply same_places_refl|].
    constructor; [now rewrite H0, H1|apply same_places_refl].
  - rewrite rename_deltas_two by assumption.
    apply Forall2_app; [apply same_places_refl|].
    constructor; [now rewrite H0, H1|].
    apply Forall2_app; [apply same_places_refl|].
    constructor; [now rewrite H0, H2|apply same_places_refl].
Qed.

Lemma assoc_relabel (k : string) (new : list string) (l : list (string * series)) :
  same_places k new (map fst l) ->
  assoc k (combine new (map snd l)) = assoc k l.
Proof.
  revert new. induction l as [|[a v] l IH]; intros new H; simpl in *.
  - inversion H. reflexivity.
  - inversion H as [|x y xs ys Hxy Hrest]; subst. simpl.
    rewrite Hxy. destruct (String.eqb k a); auto.
Qed.

(** Renaming the [Delta] headers moves no other column. *)
Lemma getitem_fix_delta_columns (f : frame) (k : string) :
  k <> "Delta" -> k <> "Delta (CR)" -> k <> "Delta (CTR)" ->
  getitem (fix_delta_columns f) k = getitem f k.
Proof.
  intros H0 H1 H2. rewrite fix_delta_columns_set.
  unfold getitem, set_columns. simpl.
  apply assoc_relabel. now apply rename_deltas_same_places.
Qed.

(** The [Keyword] column reaches the row filter as it came in. *)
Lemma getitem_keyword_before_filter (f : frame) :
  getitem (coerce_columns (fix_delta_columns f)) "Keyword"
  = getitem f "Keyword".
Proof.
  destruct (writes_coerce_columns (fix_delta_columns f)) as [_ G].
  rewrite G.
  - apply getitem_fix_delta_columns; discriminate.
  - unfold coerced_names. simpl.
    intros H. repeat (destruct H as [H|H]; [discriminate H|]). exact H.
Qed.

End KeywordUntouched.

(** ** The row filter *)

Section RowFilter.

Variable float_repr : R -> string.



Lemma getitem_select_rows (mask : list bool) (f : frame) (c : string) :
  getitem (select_rows mask f) c = option_map (select mask) (getitem f c).
Proof.
  unfold getitem, select_rows. simpl.
  induction (cols f) as [|[k v] l IH]; simpl; [reflexivity|].
  destruct (String.eqb c k); auto.
Qed.

Lemma index_before_filter (f : frame) :
  index (coerce_columns (fix_delta_columns f)) = index f.
Proof. now rewrite index_coerce_columns, index_fix_delta_columns. Qed.

Lemma cell_at_keyword_before_filter (f : frame) (i : nat) :
  cell_at (coerce_columns (fix_delta_columns f)) "Keyword" i
  = cell_at f "Keyword" i.
Proof. unfold cell_at. now rewrite getitem_keyword_before_filter. Qed.

(** The mask of the row filter, row by row of the raw table. *)
Lemma keyword_mask_rows (f : frame) :
  keyword_mask (strip_keyword float_repr (coerce_columns (fix_delta_columns f)))
  = row_mask float_repr f.
Proof.
  unfold keyword_mask, strip_keyword, row_mask.
  rewrite column_assign_eq, map_map.
  unfold nrows. rewrite index_before_filter.
  apply map_ext. intros i. cbv beta.
  rewrite cell_at_keyword_before_filter.
  unfold usable, trimmed_keyword.
  generalize (strip (cell_str float_repr (cell_at f "Keyword" i))).
  intros s. reflexivity.
Qed.









End RowFilter.

(** ** Arithmetic on float values *)

Section FloatFacts.

Local Open Scope R_scope.

Lemma nonneg_not_nan (x : float) : nonneg x -> isnan x = false.
Proof. destruct x; simpl; tauto. Qed.











Lemma weighted_sum_nan (cg cv sp : float) :
  weighted_sum NaN cg cv sp = NaN.
Proof. reflexivity. Qed.

(** *** The logarithm of the demand *)

Lemma demand_not_inf (x : float) :
  x <> PInf -> demand x = Fin (demand_value x).
Proof.
  intros Hx.
  destruct x as [a| | |]; try contradiction;
    unfold demand, fillna, clip_lower, demand_value; cbn [isnan fltb].
  - unfold Rltb. destruct (Rlt_dec a 0) as [H|H].
    + now rewrite Rmax_right by lra.
    + now rewrite Rmax_left by lra.
  - reflexivity.
  - now rewrite Rltb_false by lra.
Qed.

Lemma demand_value_nonneg (x : float) : 0 <= demand_value x.
Proof. destruct x; simpl; try lra. apply Rmax_r. Qed.

Lemma log_demand_not_inf (x : float) :
  x <> PInf -> log_demand x = Fin (ln (1 + demand_value x)).
Proof.
  intros Hx. unfold log_demand. rewrite demand_not_inf by assumption.
  simpl. pose proof (demand_value_nonneg x).
  now rewrite Rltb_true by lra.
Qed.

Lemma log_demand_inf : log_demand PInf = PInf.
Proof. reflexivity. Qed.

Lemma ln_1p_nonneg (r : R) : 0 <= r -> 0 <= ln (1 + r).
Proof.
  intros [H | <-].
  - left. rewrite <- ln_1. apply ln_increasing; lra.
  - rewrite Rplus_0_r, ln_1. lra.
Qed.



Lemma log_demand_nonneg (x : float) : nonneg (log_demand x).
Proof.
  destruct x as [a| | |]; try (rewrite log_demand_not_inf by discriminate);
    simpl; auto; apply ln_1p_nonneg; try lra. apply Rmax_r.
Qed.

(** *** The largest value of a column *)

Lemma series_max_fin (rs : list R) :
  rs <> [] ->
  exists m, series_max (map Fin rs) = Fin m
            /\ In m rs /\ forall r, In r rs -> r <= m.
Proof.
  induction rs as [|x rs IH]; [congruence|]. intros _.
  destruct rs as [|y rs].
  - exists x. simpl. repeat split; auto. intros r [->|[]]. lra.
  - destruct IH as (m & Hm & Hin & Hle); [discriminate|].
    change (series_max (map Fin (x :: y :: rs)))
      with (let m := series_max (map Fin (y :: rs)) in
            if isnan (Fin x) then m
            else if isnan m then Fin x
            else if fltb m (Fin x) then Fin x else m).
    rewrite Hm. cbn [isnan fltb]. unfold Rltb.
    destruct (Rlt_dec m x) as [Hlt|Hge].
    + exists x. repeat split; [now left|].
      intros r [->|Hr]; [lra|]. specialize (Hle r Hr). lra.
    + exists m. repeat split; [now right|].
      intros r [->|Hr]; [lra|]. now apply Hle.
Qed.

(** With an infinite value in it, a column of non-negative values has
    an infinite maximum. *)
Lemma series_max_nonneg (l : list float) :
  Forall nonneg l -> l <> [] -> nonneg (series_max l).
Proof.
  induction l as [|x l IH]; [congruence|]. intros Hall _.
  inversion Hall as [|? ? Hx Hl]; subst.
  destruct l as [|y l].
  - simpl. rewrite (nonneg_not_nan x Hx). exact Hx.
  - assert (Hm : nonneg (series_max (y :: l))) by (apply IH; [assumption|discriminate]).
    change (series_max (x :: y :: l))
      with (let m := series_max (y :: l) in
            if isnan x then m
            else if isnan m then x
            else if fltb m x then x else m).
    cbn zeta. rewrite (nonneg_not_nan x Hx), (nonneg_not_nan _ Hm).
    now destruct (fltb _ _).
Qed.


End FloatFacts.

(** ** Demand score, opportunity score and buckets, row by row *)

Section Scoring.

Variable float_repr : R -> string.

Local Open Scope R_scope.

(** Columns the three last stages leave alone. *)
Lemma cell_at_after_normalize (h : frame) (c : string) (i : nat) :
  String.eqb c "OpportunityScore" = false ->
  String.eqb c "Bucket" = false ->
  String.eqb c "Suggested Action" = false ->
  cell_at (suggested_action (buckets (opportunity_score h))) c i
  = cell_at h c i.
Proof.
  intros H1 H2 H3.
  unfold suggested_action, buckets, set_where, opportunity_score.
  now rewrite !cell_at_assign_ne by assumption.
Qed.

Lemma cell_at_after_score (h : frame) (c : string) (i : nat) :
  String.eqb c "Bucket" = false ->
  String.eqb c "Suggested Action" = false ->
  cell_at (suggested_action (buckets h)) c i = cell_at h c i.
Proof.
  intros H2 H3. unfold suggested_action, buckets, set_where.
  now rewrite !cell_at_assign_ne by assumption.
Qed.

Lemma cell_at_normalize_ne (h : frame) (c : string) (i : nat) :
  String.eqb c "DemandScore" = false ->
  cell_at (normalize_demand h) c i = cell_at h c i.
Proof.
  intros H. unfold normalize_demand. destruct (fgtb _ _);
    now rewrite !cell_at_assign_ne by assumption.
Qed.

Lemma num_at_after_normalize (h : frame) (c : string) (i : nat) :
  String.eqb c "OpportunityScore" = false ->
  String.eqb c "Bucket" = false ->
  String.eqb c "Suggested Action" = false ->
  num_at (suggested_action (buckets (opportunity_score h))) c i
  = num_at h c i.
Proof.
  intros H1 H2 H3. unfold num_at. now rewrite cell_at_after_normalize.
Qed.

Lemma num_at_after_score (h : frame) (c : string) (i : nat) :
  String.eqb c "Bucket" = false ->
  String.eqb c "Suggested Action" = false ->
  num_at (suggested_action (buckets h)) c i = num_at h c i.
Proof. intros H2 H3. unfold num_at. now rewrite cell_at_after_score. Qed.

Lemma num_at_normalize_ne (h : frame) (c : string) (i : nat) :
  String.eqb c "DemandScore" = false ->
  num_at (normalize_demand h) c i = num_at h c i.
Proof. intros H. unfold num_at. now rewrite cell_at_normalize_ne. Qed.

(** The normalised score of row [i], from the demand column. *)
Lemma demand_score_rows (h : frame) (i : nat) :
  (i < nrows h)%nat ->
  let l := fun j => log_demand (num_at h "Market_Demand" j) in
  let m := series_max (map l (seq 0 (nrows h))) in
  cell_at (normalize_demand h) "DemandScore" i
  = CNum (if fgtb m (Fin 0) then fdiv (l i) m else l i).
Proof.
  intros Hi l m. unfold normalize_demand.
  rewrite column_assign_eq, map_map.
  change (map _ (seq 0 (nrows h))) with (map l (seq 0 (nrows h))).
  fold m. destruct (fgtb m (Fin 0)).
  - rewrite cell_at_assign_eq by exact Hi.
    unfold num_at. rewrite cell_at_assign_eq by exact Hi. reflexivity.
  - rewrite cell_at_assign_eq by exact Hi. reflexivity.
Qed.


Lemma score_rows (h : frame) (i : nat) :
  (i < nrows h)%nat ->
  cell_at (opportunity_score h) "OpportunityScore" i
  = CNum (fillna (Fin 0)
            (weighted_sum (num_at h "DemandScore" i) (num_at h "ClickGap" i)
                          (num_at h "ConvGap" i)
                          (num_at h "ShareGap_Purchases" i))).
Proof.
  intros Hi. unfold opportunity_score.
  rewrite cell_at_assign_eq by exact Hi.
  unfold num_at at 1. rewrite cell_at_assign_eq by exact Hi. reflexivity.
Qed.

Lemma bucket_rows (h : frame) (i : nat) :
  (i < nrows h)%nat ->
  cell_at (buckets h) "Bucket" i
  = CStr (last_match (num_at h "DemandScore" i)
                     (num_at h "Impressions - ASIN Share" i)
                     (num_at h "Clicks - ASIN Share" i)
                     (num_at h "Purchases - ASIN Share" i)).
Proof.
  intros Hi. unfold buckets, set_where, last_match.
  repeat (rewrite cell_at_assign_eq by exact Hi).
  rewrite !num_at_assign_ne by reflexivity.
  destruct (defend_rule _ _); [reflexivity|].
  destruct (ppc_rule _ _ _ _); [reflexivity|].
  destruct (conversion_rule _ _ _); [reflexivity|].
  destruct (ranking_rule _ _ _); reflexivity.
Qed.

Lemma last_match_label (ds imp clk pur : float) :
  In (last_match ds imp clk pur) bucket_labels.
Proof.
  unfold last_match, bucket_labels.
  destruct (defend_rule _ _); [simpl; tauto|].
  destruct (ppc_rule _ _ _ _); [simpl; tauto|].
  destruct (conversion_rule _ _ _); [simpl; tauto|].
  destruct (ranking_rule _ _ _); simpl; tauto.
Qed.

Lemma ppc_excludes_defend (ds imp clk pur : float) :
  ppc_rule ds pur clk imp = true -> defend_rule imp pur = false.
Proof.
  unfold ppc_rule, defend_rule. intros H.
  apply andb_prop in H. destruct H as [_ H].
  destruct imp as [a| | |]; simpl in *; try discriminate; try reflexivity.
  apply Rltb_spec in H. unfold fgeb. simpl.
  now rewrite Rleb_false by lra.
Qed.

Lemma fltb_nan_r (x : float) : fltb x NaN = false.
Proof. now destruct x. Qed.

Lemma fleb_nan_r (x : float) : fleb x NaN = false.
Proof. now destruct x. Qed.

Lemma fmul_nan_l (x : float) : fmul NaN x = NaN.
Proof. reflexivity. Qed.

(** A rule whose comparison meets a missing share is false. *)
Lemma rules_false_on_missing (ds x y : float) :
  ranking_rule ds NaN x = false /\ ranking_rule ds x NaN = false
  /\ conversion_rule ds NaN x = false /\ conversion_rule ds x NaN = false
  /\ ppc_rule ds NaN x y = false /\ ppc_rule ds x NaN y = false
  /\ ppc_rule ds x y NaN = false
  /\ defend_rule NaN x = false /\ defend_rule x NaN = false.
Proof.
  unfold ranking_rule, conversion_rule, ppc_rule, defend_rule, fgtb, fgeb.
  rewrite !fmul_nan_l, !fltb_nan_r, !fleb_nan_r.
  cbn [fltb fleb]. rewrite !andb_false_r. cbn [andb].
  repeat split; reflexivity.
Qed.

Lemma rules_on_missing (ds imp clk pur : float) :
  (isnan imp = true ->
     ranking_rule ds imp clk = false /\ ppc_rule ds pur clk imp = false
     /\ defend_rule imp pur = false)
  /\ (isnan clk = true ->
        ranking_rule ds imp clk = false /\ conversion_rule ds clk pur = false
        /\ ppc_rule ds pur clk imp = false)
  /\ (isnan pur = true ->
        conversion_rule ds clk pur = false /\ ppc_rule ds pur clk imp = false
        /\ defend_rule imp pur = false).
Proof.
  split; [|split].
  - intros H. destruct imp; try discriminate H.
    pose proof (rules_false_on_missing ds clk pur) as A.
    pose proof (rules_false_on_missing ds pur clk) as B.
    pose proof (rules_false_on_missing ds pur pur) as C.
    tauto.
  - intros H. destruct clk; try discriminate H.
    pose proof (rules_false_on_missing ds imp pur) as A.
    pose proof (rules_false_on_missing ds pur imp) as B.
    tauto.
  - intros H. destruct pur; try discriminate H.
    pose proof (rules_false_on_missing ds clk imp) as A.
    pose proof (rules_false_on_missing ds imp imp) as B.
    tauto.
Qed.

(** The bucket cell of the output, from the columns of the output. *)
Lemma bucket_cell (f : frame) (i : nat) :
  (i < nrows (prep_frame float_repr f))%nat ->
  cell_at (prep_frame float_repr f) "Bucket" i
  = CStr (last_match
            (num_at (prep_frame float_repr f) "DemandScore" i)
            (num_at (prep_frame float_repr f) "Impressions - ASIN Share" i)
            (num_at (prep_frame float_repr f) "Clicks - ASIN Share" i)
            (num_at (prep_frame float_repr f) "Purchases - ASIN Share" i)).
Proof.
  intros Hi.
  assert (Hn : (i < nrows (opportunity_score (normalize_demand
                     (derived_fields (filtered float_repr f)))))%nat).
  { rewrite nrows_opportunity_score, nrows_normalize_demand,
      nrows_derived_fields.
    now rewrite nrows_prep_frame in Hi. }
  rewrite prep_frame_stages.
  rewrite !num_at_after_score by reflexivity.
  unfold suggested_action. rewrite cell_at_assign_ne by reflexivity.
  exact (bucket_rows _ i Hn).
Qed.

Lemma last_match_facts (ds imp clk pur : float) :
  In (last_match ds imp clk pur) bucket_labels
  /\ (ranking_rule ds imp clk = true -> ppc_rule ds pur clk imp = true ->
        last_match ds imp clk pur = "PPC Scaling Opportunity").
Proof.
  split; [apply last_match_label|].
  intros _ H4. unfold last_match.
  now rewrite (ppc_excludes_defend ds imp clk pur H4), H4.
Qed.


(** The score cell of the output, from the columns of the output. *)
Lemma score_cell (f : frame) (i : nat) :
  (i < nrows (prep_frame float_repr f))%nat ->
  cell_at (prep_frame float_repr f) "OpportunityScore" i
  = CNum (fillna (Fin 0)
            (weighted_sum
               (num_at (prep_frame float_repr f) "DemandScore" i)
               (num_at (prep_frame float_repr f) "ClickGap" i)
               (num_at (prep_frame float_repr f) "ConvGap" i)
               (num_at (prep_frame float_repr f) "ShareGap_Purchases" i))).
Proof.
  intros Hi.
  assert (Hn2 : (i < nrows (normalize_demand
                     (derived_fields (filtered float_repr f))))%nat).
  { rewrite nrows_normalize_demand, nrows_derived_fields.
    now rewrite nrows_prep_frame in Hi. }
  rewrite prep_frame_stages.
  rewrite !num_at_after_normalize by reflexivity.
  rewrite cell_at_after_score by reflexivity.
  exact (score_rows _ i Hn2).
Qed.




End Scoring.

(** ** Demand normalisation *)

Section DemandNormalisation.

Variable float_repr : R -> string.

Local Open Scope R_scope.

Lemma normalised_ext (md md' : nat -> float) (n i : nat) :
  (forall j, md j = md' j) -> normalised md n i = normalised md' n i.
Proof.
  intros E. unfold normalised.
  rewrite (map_ext (fun j => log_demand (md j)) (fun j => log_demand (md' j)))
    by (intros j; now rewrite E).
  now rewrite E.
Qed.

(** The demand score of the output, from the demand column of the
    output. *)
Lemma demand_cell (f : frame) (i : nat) :
  (i < nrows (prep_frame float_repr f))%nat ->
  num_at (prep_frame float_repr f) "DemandScore" i
  = normalised (num_at (prep_frame float_repr f) "Market_Demand")
               (nrows (prep_frame float_repr f)) i.
Proof.
  intros Hi.
  assert (Hn : (i < nrows (derived_fields (filtered float_repr f)))%nat).
  { rewrite nrows_derived_fields. now rewrite nrows_prep_frame in Hi. }
  rewrite (normalised_ext
             (num_at (prep_frame float_repr f) "Market_Demand")
             (num_at (derived_fields (filtered float_repr f)) "Market_Demand")).
  - rewrite nrows_prep_frame, <- (nrows_derived_fields (filtered float_repr f)).
    rewrite prep_frame_stages.
    rewrite num_at_after_normalize by reflexivity.
    unfold num_at at 1. rewrite (demand_score_rows _ i Hn).
    unfold normalised. cbv zeta. cbn [cell_float]. reflexivity.
  - intros j. rewrite prep_frame_stages.
    rewrite num_at_after_normalize by reflexivity.
    now rewrite num_at_normalize_ne by reflexivity.
Qed.


(** The largest value of a column of finite values, given row by
    row. *)
Lemma series_max_rows (l : nat -> float) (v : nat -> R) (n : nat) :
  (0 < n)%nat ->
  (forall j, (j < n)%nat -> l j = Fin (v j)) ->
  exists k,
    (k < n)%nat
    /\ series_max (map l (seq 0 n)) = Fin (v k)
    /\ forall j, (j < n)%nat -> v j <= v k.
Proof.
  intros Hn Hl.
  assert (E : map l (seq 0 n) = map Fin (map v (seq 0 n))).
  { rewrite map_map. apply map_ext_in. intros j Hj.
    apply in_seq in Hj. apply Hl. lia. }
  rewrite E.
  destruct (series_max_fin (map v (seq 0 n))) as (m & Hm & Hin & Hle).
  { destruct n; [lia|]. discriminate. }
  apply in_map_iff in Hin. destruct Hin as (k & Hk & Hkin).
  apply in_seq in Hkin. exists k. split; [lia|]. split.
  - now rewrite Hk.
  - intros j Hj. rewrite Hk. apply Hle.
    apply in_map. apply in_seq. lia.
Qed.






End DemandNormalisation.

(** ** The theorems on the sample tables *)

Lemma nrows_prep_scenario :
  nrows (prep_frame Samples.sample_repr Samples.scenario) = 1.
Proof. rewrite nrows_prep_frame. vm_compute. reflexivity. Qed.

Lemma market_demand_out (float_repr : R -> string) (f : frame) (j : nat) :
  num_at (prep_frame float_repr f) "Market_Demand" j
  = num_at (derived_fields (filtered float_repr f)) "Market_Demand" j.
Proof.
  rewrite prep_frame_stages.
  rewrite num_at_after_normalize by reflexivity.
  now rewrite num_at_normalize_ne by reflexivity.
Qed.





(** A row on which the ranking rule and the PPC rule both match. *)
Lemma ranking_and_ppc_match :
  ranking_rule (Fin 1) (Fin 0.05) (Fin 0.01) = true
  /\ ppc_rule (Fin 1) (Fin 0.02) (Fin 0.01) (Fin 0.05) = true
  /\ last_match (Fin 1) (Fin 0.05) (Fin 0.01) (Fin 0.02)
     = "PPC Scaling Opportunity".
Proof.
  assert (R2 : ranking_rule (Fin 1) (Fin 0.05) (Fin 0.01) = true).
  { unfold ranking_rule, fgtb. cbn [fltb fmul].
    now rewrite !Rltb_true by lra. }
  assert (R4 : ppc_rule (Fin 1) (Fin 0.02) (Fin 0.01) (Fin 0.05) = true).
  { unfold ppc_rule, fgtb, fgeb. cbn [fltb fleb fmul].
    now rewrite !Rltb_true, Rleb_true by lra. }
  split; [exact R2|]. split; [exact R4|].
  exact (proj2 (last_match_facts _ _ _ _) R2 R4).
Qed.





(** ** Shape of the table through the pipeline *)

Section Shape.

Variable float_repr : R -> string.

Lemma rect_getitem (f : frame) (c : string) (col : series) :
rect f -> getitem f c = Some col -> List.length col = nrows f.
Proof.
unfold rect, getitem. intros Hr.
induction (cols f) as [|[k v] l IH]; simpl; [discriminate|].
inversion Hr as [|? ? Hk Hl]; subst.
destruct (String.eqb c k).
- intros E. injection E as <-. exact Hk.
- now apply IH.
Qed.

Lemma rect_setitem (f : frame) (c : string) (v : series) :
rect f -> List.length v = nrows f -> rect (setitem f c v).
Proof.
unfold rect, setitem, nrows. cbn [cols index]. intros Hr Hv.
induction (cols f) as [|[k w] l IH]; cbn [put].
- constructor; [exact Hv|constructor].
- inversion Hr as [|? ? Hk Hl]; subst.
  destruct (String.eqb c k).
  + constructor; [exact Hv|exact Hl].
  + constructor; [exact Hk|now apply IH].
Qed.

Lemma length_tabulate {A} (g : nat -> A) (n : nat) :
List.length (map g (seq 0 n)) = n.
Proof. now rewrite length_map, length_seq. Qed.

Lemma rect_assign (f : frame) (c : string) (g : nat -> cell) :
rect f -> rect (assign f c g).
Proof. intros Hr. apply rect_setitem; [exact Hr|apply length_tabulate]. Qed.

Lemma rect_set_columns (new : list string) (f : frame) :
rect f -> rect (set_columns new f).
Proof.
unfold rect, set_columns, nrows. cbn [cols index]. intros Hr.
revert new. induction (cols f) as [|[k w] l IH]; intros new.
- destruct new; constructor.
- inversion Hr as [|? ? Hk Hl]; subst.
  destruct new as [|a new]; cbn [map combine]; constructor.
  + exact Hk.
  + now apply IH.
Qed.

Lemma rect_fix_delta_columns (f : frame) :
rect f -> rect (fix_delta_columns f).
Proof. intros Hr. rewrite fix_delta_columns_set. now apply rect_set_columns. Qed.

Lemma length_coerce_percent (s : series) :
List.length (_coerce_percent s) = List.length s.
Proof.
unfold _coerce_percent.
destruct (negb _ && _); now rewrite !length_map.
Qed.

Lemma rect_coerce_col (g : series -> list float) (f : frame) (c : string) :
(forall s, List.length (g s) = List.length s) ->
rect f -> rect (coerce_col g f c).
Proof.
intros Hg Hr. unfold coerce_col.
destruct (getitem f c) as [col|] eqn:E; [|exact Hr].
apply rect_setitem; [exact Hr|].
rewrite length_map, Hg. now apply (rect_getitem f c).
Qed.

Lemma rect_fold_coerce (g : series -> list float) (cs : list string) (f : frame) :
(forall s, List.length (g s) = List.length s) ->
rect f -> rect (fold_left (coerce_col g) cs f).
Proof.
intros Hg. revert f. induction cs as [|c cs IH]; intros f Hr; simpl.
- exact Hr.
- apply IH. now apply rect_coerce_col.
Qed.

Lemma rect_coerce_columns (f : frame) : rect f -> rect (coerce_columns f).
Proof.
intros Hr. unfold coerce_columns.
repeat (apply rect_fold_coerce;
        [first [exact length_coerce_percent
               |intros s; apply length_map]|]).
exact Hr.
Qed.

Lemma length_select {A B} (mask : list bool) (l1 : list A) (l2 : list B) :
List.length l1 = List.length mask ->
List.length l2 = List.length mask ->
List.length (select mask l1) = List.length (select mask l2).
Proof.
revert l1 l2. induction mask as [|b m IH]; intros l1 l2 H1 H2.
- reflexivity.
- destruct l1 as [|x r1]; [discriminate H1|].
  destruct l2 as [|y r2]; [discriminate H2|].
  injection H1 as H1. injection H2 as H2.
  destruct b; cbn [select List.length]; rewrite (IH r1 r2 H1 H2); reflexivity.
Qed.

Lemma rect_select_rows (mask : list bool) (f : frame) :
rect f -> List.length mask = nrows f -> rect (select_rows mask f).
Proof.
unfold rect, select_rows, nrows. cbn [cols index]. intros Hr Hm.
induction (cols f) as [|[k w] l IH]; cbn [map]; constructor.
- inversion Hr as [|? ? Hk Hl]; subst. cbn [snd] in *.
  apply length_select; congruence.
- inversion Hr as [|? ? Hk Hl]; subst. now apply IH.
Qed.

Lemma length_keyword_mask (f : frame) :
List.length (keyword_mask f) = nrows f.
Proof. unfold keyword_mask. now rewrite length_map, length_column. Qed.

Lemma rect_drop_empty_keywords (f : frame) :
rect f -> rect (drop_empty_keywords float_repr f).
Proof.
intros Hr. unfold drop_empty_keywords.
destruct (has_col f "Keyword"); [|exact Hr].
apply rect_select_rows.
- unfold strip_keyword. now apply rect_assign.
- apply length_keyword_mask.
Qed.

Lemma rect_derived_fields (f : frame) : rect f -> rect (derived_fields f).
Proof.
intros Hr. unfold derived_fields.
repeat apply rect_assign.
destruct (forallb _ _); repeat apply rect_assign; exact Hr.
Qed.

Lemma rect_normalize_demand (f : frame) : rect f -> rect (normalize_demand f).
Proof.
intros Hr. unfold normalize_demand.
destruct (fgtb _ _); repeat apply rect_assign; exact Hr.
Qed.

(** X1: a table in which every column has one cell per row comes out of
  the pipeline with one cell per row in every column, the derived
  ones included. *)
Theorem prep_frame_rect (f : frame) :
rect f -> rect (prep_frame float_repr f).
Proof.
intros Hr. rewrite prep_frame_stages.
unfold suggested_action, buckets, set_where, opportunity_score.
repeat apply rect_assign.
apply rect_normalize_demand, rect_derived_fields.
unfold filtered.
apply rect_drop_empty_keywords, rect_coerce_columns, rect_fix_delta_columns.
exact Hr.
Qed.

End Shape.

(** ** Which columns the output has, and what they hold *)

Section Columns.

Variable float_repr : R -> string.

Lemma full_assign_same (f : frame) (c : string) (g : nat -> cell) :
full (assign f c g) c.
Proof.
exists (map g (seq 0 (nrows f))). split.
- apply getitem_setitem_eq.
- rewrite nrows_assign. apply length_tabulate.
Qed.

Lemma full_assign_other (f : frame) (c c' : string) (g : nat -> cell) :
full f c -> full (assign f c' g) c.
Proof.
intros (col & Hg & Hl).
destruct (String.eqb c c') eqn:E.
- apply String.eqb_eq in E. subst c'. apply full_assign_same.
- exists col. split; [|now rewrite nrows_assign].
  unfold assign. now rewrite getitem_setitem_ne.
Qed.

Lemma full_normalize_score (h : frame) :
full (normalize_demand h) "DemandScore".
Proof. unfold normalize_demand. destruct (fgtb _ _); apply full_assign_same. Qed.

Lemma full_normalize_keep (h : frame) (c : string) :
full h c -> full (normalize_demand h) c.
Proof.
intros H. unfold normalize_demand.
destruct (fgtb _ _); repeat apply full_assign_other; exact H.
Qed.

Lemma full_derived_fields (g : frame) (c : string) :
In c ["Market_Demand"; "ClickGap"; "ConvGap"; "ShareGap_Clicks";
      "ShareGap_Purchases"] ->
full (derived_fields g) c.
Proof.
intros Hin. unfold derived_fields.
cbn [In] in Hin.
destruct Hin as [<-|[<-|[<-|[<-|[<-|[]]]]]];
  repeat first [apply full_assign_same | apply full_assign_other].
destruct (forallb _ _); apply full_assign_same.
Qed.

Lemma full_score_new (h : frame) :
full (opportunity_score h) "OpportunityScore".
Proof. unfold opportunity_score. apply full_assign_same. Qed.

Lemma full_score_keep (h : frame) (c : string) :
full h c -> full (opportunity_score h) c.
Proof.
intros H. unfold opportunity_score. now do 2 apply full_assign_other.
Qed.

Lemma full_buckets_new (h : frame) : full (buckets h) "Bucket".
Proof. unfold buckets, set_where. apply full_assign_same. Qed.

Lemma full_buckets_keep (h : frame) (c : string) :
full h c -> full (buckets h) c.
Proof.
intros H. unfold buckets, set_where. now do 5 apply full_assign_other.
Qed.

Lemma full_action_keep (h : frame) (c : string) :
full h c -> full (suggested_action h) c.
Proof. intros H. unfold suggested_action. now apply full_assign_other. Qed.

(** X2: whatever the input, the output has each of the nine derived
  columns, with one cell per row. *)
Theorem derived_columns_present (f : frame) (c : string) :
In c derived_names ->
exists col,
  getitem (prep_frame float_repr f) c = Some col
  /\ List.length col = nrows (prep_frame float_repr f).
Proof.
intros Hin. change (full (prep_frame float_repr f) c).
rewrite prep_frame_stages.
assert (Hd : In c ["Market_Demand"; "ClickGap"; "ConvGap"; "ShareGap_Clicks";
                   "ShareGap_Purchases"]
             \/ c = "DemandScore" \/ c = "OpportunityScore"
             \/ c = "Bucket" \/ c = "Suggested Action").
{ unfold derived_names in Hin. cbn [In] in *. intuition auto. }
destruct Hd as [Hd|[->|[->|[->| ->]]]].
- apply full_action_keep, full_buckets_keep, full_score_keep,
    full_normalize_keep, full_derived_fields. exact Hd.
- apply full_action_keep, full_buckets_keep, full_score_keep,
    full_normalize_score.
- apply full_action_keep, full_buckets_keep, full_score_new.
- apply full_action_keep, full_buckets_new.
- unfold suggested_action. apply full_assign_same.
Qed.

(** *** Coerced columns hold numbers only *)

Lemma forallb_is_num_map (l : list float) :
forallb is_num (map CNum l) = true.
Proof. induction l; simpl; auto. Qed.

Lemma numeric_coerce_col_same (g : series -> list float) (f : frame) (c : string) :
numeric (coerce_col g f c) c.
Proof.
unfold numeric, coerce_col.
destruct (getitem f c) as [col0|] eqn:E; intros col Hc.
- rewrite getitem_setitem_eq in Hc. injection Hc as <-.
  apply forallb_is_num_map.
- congruence.
Qed.

Lemma numeric_coerce_col_keep (g : series -> list float) (f : frame) (c c' : string) :
numeric f c -> numeric (coerce_col g f c') c.
Proof.
intros Hn.
destruct (String.eqb c c') eqn:E.
- apply String.eqb_eq in E. subst c'. apply numeric_coerce_col_same.
- unfold numeric, coerce_col.
  destruct (getitem f c'); [|exact Hn].
  intros col Hc. rewrite getitem_setitem_ne in Hc by exact E.
  now apply Hn.
Qed.

Lemma numeric_fold_keep (g : series -> list float) (cs : list string)
    (f : frame) (c : string) :
numeric f c -> numeric (fold_left (coerce_col g) cs f) c.
Proof.
revert f. induction cs as [|c' cs IH]; intros f Hn; simpl.
- exact Hn.
- apply IH. now apply numeric_coerce_col_keep.
Qed.

Lemma numeric_fold_in (g : series -> list float) (cs : list string)
    (f : frame) (c : string) :
In c cs -> numeric (fold_left (coerce_col g) cs f) c.
Proof.
revert f. induction cs as [|c' cs IH]; intros f Hin; [destruct Hin|].
simpl. destruct Hin as [->|Hin].
- apply numeric_fold_keep, numeric_coerce_col_same.
- now apply IH.
Qed.

Lemma absent_coerce_col (g : series -> list float) (f : frame) (c c' : string) :
getitem f c = None -> getitem (coerce_col g f c') c = None.
Proof.
intros Hn. unfold coerce_col.
destruct (getitem f c') as [col|] eqn:E; [|exact Hn].
destruct (String.eqb c c') eqn:Ec.
- apply String.eqb_eq in Ec. subst c'. congruence.
- now rewrite getitem_setitem_ne.
Qed.

Lemma absent_fold_coerce (g : series -> list float) (cs : list string)
    (f : frame) (c : string) :
getitem f c = None -> getitem (fold_left (coerce_col g) cs f) c = None.
Proof.
revert f. induction cs as [|c' cs IH]; intros f Hn; simpl.
- exact Hn.
- apply IH. now apply absent_coerce_col.
Qed.

(** The coercion loops add no column. *)
Lemma absent_coerce_columns (f : frame) (c : string) :
getitem f c = None -> getitem (coerce_columns f) c = None.
Proof.
intros Hn. unfold coerce_columns.
now repeat apply absent_fold_coerce.
Qed.

Lemma numeric_absent (f : frame) (c : string) :
getitem f c = None -> numeric f c.
Proof. intros Hn col Hc. congruence. Qed.

Lemma numeric_coerce_columns (f : frame) (c : string) :
In c coerced_names -> numeric (coerce_columns f) c.
Proof.
intros Hin. unfold coerced_names in Hin.
apply in_app_or in Hin. destruct Hin as [Hin|Hin].
{ unfold coerce_columns.
  do 3 apply numeric_fold_keep. apply numeric_fold_in.
  apply in_or_app. now left. }
apply in_app_or in Hin. destruct Hin as [Hin|Hin].
{ destruct (has_col f c) eqn:Hc.
  - unfold coerce_columns.
    do 3 apply numeric_fold_keep. apply numeric_fold_in.
    apply in_or_app. right. apply filter_In. split; assumption.
  - apply numeric_absent, absent_coerce_columns.
    rewrite has_col_getitem in Hc.
    destruct (getitem f c); [discriminate Hc|reflexivity]. }
apply in_app_or in Hin. destruct Hin as [Hin|Hin].
{ unfold coerce_columns.
  do 2 apply numeric_fold_keep. now apply numeric_fold_in. }
apply in_app_or in Hin. destruct Hin as [Hin|Hin].
{ unfold coerce_columns.
  apply numeric_fold_keep. now apply numeric_fold_in. }
unfold coerce_columns. now apply numeric_fold_in.
Qed.

Lemma forallb_select {A} (p : A -> bool) (mask : list bool) (l : list A) :
forallb p l = true -> forallb p (select mask l) = true.
Proof.
revert l. induction mask as [|b m IH]; intros l Hl; [reflexivity|].
destruct l as [|x r]; [reflexivity|].
cbn [forallb] in Hl. apply andb_prop in Hl. destruct Hl as [Hx Hr].
destruct b; cbn [select forallb]; rewrite ?Hx; now apply IH.
Qed.

Lemma numeric_select_rows (mask : list bool) (f : frame) (c : string) :
numeric f c -> numeric (select_rows mask f) c.
Proof.
intros Hn col Hc. rewrite getitem_select_rows in Hc.
destruct (getitem f c) as [col0|] eqn:E; [|discriminate Hc].
cbn [option_map] in Hc. injection Hc as <-.
apply forallb_select. now apply Hn.
Qed.

Lemma numeric_assign_other (f : frame) (c c' : string) (g : nat -> cell) :
String.eqb c c' = false -> numeric f c -> numeric (assign f c' g) c.
Proof.
intros Hne Hn col Hc. unfold assign in Hc.
rewrite getitem_setitem_ne in Hc by exact Hne. now apply Hn.
Qed.

Lemma numeric_drop_empty_keywords (f : frame) (c : string) :
String.eqb c "Keyword" = false ->
numeric f c -> numeric (drop_empty_keywords float_repr f) c.
Proof.
intros Hne Hn. unfold drop_empty_keywords.
destruct (has_col f "Keyword"); [|exact Hn].
apply numeric_select_rows. unfold strip_keyword.
now apply numeric_assign_other.
Qed.

Lemma coerced_not_keyword (c : string) :
In c coerced_names -> String.eqb c "Keyword" = false.
Proof.
intros H.
assert (E : forallb (fun c => negb (String.eqb c "Keyword")) coerced_names
            = true) by (vm_compute; reflexivity).
rewrite forallb_forall in E. specialize (E c H).
now apply negb_true_iff in E.
Qed.

Lemma coerced_not_derived (c : string) :
In c coerced_names -> ~ In c derived_names.
Proof.
intros H D.
assert (E : forallb (fun c => negb (existsb (String.eqb c) derived_names))
              coerced_names = true) by (vm_compute; reflexivity).
rewrite forallb_forall in E. specialize (E c H).
apply negb_true_iff in E.
assert (T : existsb (String.eqb c) derived_names = true).
{ apply existsb_exists. exists c. split; [exact D|apply String.eqb_refl]. }
congruence.
Qed.

Lemma numeric_cell_at (f : frame) (c : string) (i : nat) :
numeric f c -> is_num (cell_at f c i) = true.
Proof.
intros Hn. unfold cell_at.
destruct (getitem f c) as [col|] eqn:E; [|reflexivity].
specialize (Hn col E).
destruct (Nat.lt_ge_cases i (List.length col)) as [Hi|Hi].
- rewrite forallb_forall in Hn. apply Hn. now apply nth_In.
- now rewrite nth_overflow.
Qed.

(** X3: after the pipeline no recognised rate, share, count or delta
  column holds a string: every cell of such a column of the output is
  a number, [nan] when the text could not be read. *)
Theorem coerced_columns_numeric (f : frame) (c : string) (i : nat) :
In c coerced_names ->
is_num (cell_at (prep_frame float_repr f) c i) = true.
Proof.
intros Hin.
rewrite (writes_cell_at derived_names _ _ c i
           (writes_prep_frame float_repr f) (coerced_not_derived c Hin)).
apply numeric_cell_at. unfold filtered.
apply numeric_drop_empty_keywords; [now apply coerced_not_keyword|].
now apply numeric_coerce_columns.
Qed.

(** *** Columns the pipeline does not know *)

Lemma has_col_before_filter (f : frame) :
has_col (coerce_columns (fix_delta_columns f)) "Keyword"
= has_col f "Keyword".
Proof. now rewrite !has_col_getitem, getitem_keyword_before_filter. Qed.

(** X4: a column whose name is not recognised, not derived, not
  [Keyword] and not a [Delta] header passes through: it reaches the
  output with the cells it had, cut down to the rows that pass the
  row filter when the table has a [Keyword] column. *)
Theorem unknown_columns_pass_through (f : frame) (c : string) :
~ In c (coerced_names ++ derived_names ++ ["Keyword"; "Delta"]) ->
getitem (prep_frame float_repr f) c
= if has_col f "Keyword"
  then option_map (select (row_mask float_repr f)) (getitem f c)
  else getitem f c.
Proof.
intros Hc.
assert (Hco : ~ In c coerced_names).
{ intros H. apply Hc. apply in_or_app. now left. }
assert (Hde : ~ In c derived_names).
{ intros H. apply Hc. apply in_or_app. right. apply in_or_app. now left. }
assert (Hkw : c <> "Keyword").
{ intros ->. apply Hc. do 2 (apply in_or_app; right). now left. }
assert (Hd0 : c <> "Delta").
{ intros ->. apply Hc. do 2 (apply in_or_app; right). right. now left. }
assert (Hd1 : c <> "Delta (CR)").
{ intros ->. apply Hco. unfold coerced_names. cbn. tauto. }
assert (Hd2 : c <> "Delta (CTR)").
{ intros ->. apply Hco. unfold coerced_names. cbn. tauto. }
assert (Hg : getitem (coerce_columns (fix_delta_columns f)) c = getitem f c).
{ destruct (writes_coerce_columns (fix_delta_columns f)) as [_ G].
  rewrite (G c Hco). now apply getitem_fix_delta_columns. }
destruct (writes_prep_frame float_repr f) as [_ G]. rewrite (G c Hde).
unfold filtered, drop_empty_keywords.
rewrite has_col_before_filter.
destruct (has_col f "Keyword"); [|exact Hg].
rewrite keyword_mask_rows, getitem_select_rows.
unfold strip_keyword, assign.
rewrite getitem_setitem_ne by (now apply String.eqb_neq).
now rewrite Hg.
Qed.

End Columns.

(** ** Derived fields, row by row *)

Section DerivedRows.

Variable float_repr : R -> string.

Local Open Scope R_scope.

(** A source column of the filtered table is the same column of the
  output. *)
Lemma source_cell_out (f : frame) (c : string) (i : nat) :
~ In c derived_names ->
cell_at (prep_frame float_repr f) c i = cell_at (filtered float_repr f) c i.
Proof.
intros Hc. exact (writes_cell_at derived_names _ _ c i
                    (writes_prep_frame float_repr f) Hc).
Qed.

Lemma source_num_out (f : frame) (c : string) (i : nat) :
~ In c derived_names ->
num_at (prep_frame float_repr f) c i = num_at (filtered float_repr f) c i.
Proof. intros Hc. unfold num_at. now rewrite source_cell_out. Qed.

Ltac not_derived :=
unfold derived_names; intros H;
repeat (destruct H as [H|H]; [discriminate H|]); exact H.

Lemma derived_fields_gaps (h : frame) (i : nat) :
(i < nrows h)%nat ->
num_at (derived_fields h) "ClickGap" i
= fsub (num_at h "Market Click Through Rate" i)
       (num_at h "Our Click Through Rate" i)
/\ num_at (derived_fields h) "ConvGap" i
   = fsub (num_at h "Market Conversion Rate" i)
          (num_at h "Our Conversion Rate" i)
/\ num_at (derived_fields h) "ShareGap_Clicks" i
   = fsub (num_at h "Clicks - ASIN Share" i)
          (num_at h "Impressions - ASIN Share" i)
/\ num_at (derived_fields h) "ShareGap_Purchases" i
   = fsub (num_at h "Purchases - ASIN Share" i)
          (num_at h "Clicks - ASIN Share" i).
Proof.
intros Hi. unfold derived_fields. cbv zeta.
match goal with
| |- context [if ?b then ?x else ?y] => set (h2 := if b then x else y)
end.
assert (Hn : nrows h2 = nrows h).
{ unfold h2. destruct (forallb _ _); reflexivity. }
assert (Hk : forall c j, String.eqb c "Market_Demand" = false ->
               num_at h2 c j = num_at h c j).
{ intros c j Hc. unfold h2.
  destruct (forallb _ _); now rewrite !num_at_assign_ne by exact Hc. }
clearbody h2.
repeat split.
- rewrite !num_at_assign_ne by reflexivity.
  rewrite num_at_assign_eq by (now rewrite Hn).
  unfold gap. cbn [cell_float]. now rewrite !Hk by reflexivity.
- rewrite !num_at_assign_ne by reflexivity.
  rewrite num_at_assign_eq by (now rewrite nrows_assign, Hn).
  unfold gap. cbn [cell_float].
  rewrite !num_at_assign_ne by reflexivity. now rewrite !Hk by reflexivity.
- rewrite !num_at_assign_ne by reflexivity.
  rewrite num_at_assign_eq by (now rewrite !nrows_assign, Hn).
  unfold gap. cbn [cell_float].
  rewrite !num_at_assign_ne by reflexivity. now rewrite !Hk by reflexivity.
- rewrite num_at_assign_eq by (now rewrite !nrows_assign, Hn).
  unfold gap. cbn [cell_float].
  rewrite !num_at_assign_ne by reflexivity. now rewrite !Hk by reflexivity.
Qed.

Lemma derived_num_out (f : frame) (c : string) (i : nat) :
String.eqb c "DemandScore" = false ->
String.eqb c "OpportunityScore" = false ->
String.eqb c "Bucket" = false ->
String.eqb c "Suggested Action" = false ->
num_at (prep_frame float_repr f) c i
= num_at (derived_fields (filtered float_repr f)) c i.
Proof.
intros H1 H2 H3 H4. rewrite prep_frame_stages.
rewrite num_at_after_normalize by assumption.
now rewrite num_at_normalize_ne by assumption.
Qed.

Lemma source_num_derived (h : frame) (c : string) (i : nat) :
~ In c derived_names ->
num_at (derived_fields h) c i = num_at h c i.
Proof.
intros Hc. unfold num_at.
now rewrite (writes_cell_at derived_names _ _ c i (writes_derived_fields h) Hc).
Qed.

Lemma fsub_missing (a b : float) :
isnan a = true \/ isnan b = true -> fsub a b = NaN.
Proof.
intros [H|H]; destruct a, b; try discriminate H; reflexivity.
Qed.

(** X5: in every row of the output each gap is the difference of its
  two source cells of that row: market rate minus own rate for the
  click and conversion gaps, clicks share minus impressions share and
  purchases share minus clicks share for the share gaps; a difference
  with a missing side is missing. *)
Theorem gaps_rows (f : frame) (i : nat) :
(i < nrows (prep_frame float_repr f))%nat ->
let out := prep_frame float_repr f in
num_at out "ClickGap" i
= fsub (num_at out "Market Click Through Rate" i)
       (num_at out "Our Click Through Rate" i)
/\ num_at out "ConvGap" i
   = fsub (num_at out "Market Conversion Rate" i)
          (num_at out "Our Conversion Rate" i)
/\ num_at out "ShareGap_Clicks" i
   = fsub (num_at out "Clicks - ASIN Share" i)
          (num_at out "Impressions - ASIN Share" i)
/\ num_at out "ShareGap_Purchases" i
   = fsub (num_at out "Purchases - ASIN Share" i)
          (num_at out "Clicks - ASIN Share" i)
/\ (forall a b, isnan a = true \/ isnan b = true -> fsub a b = NaN).
Proof.
intros Hi. cbv zeta.
rewrite nrows_prep_frame in Hi.
destruct (derived_fields_gaps (filtered float_repr f) i Hi)
  as (G1 & G2 & G3 & G4).
rewrite !derived_num_out by reflexivity.
rewrite G1, G2, G3, G4.
rewrite !source_num_derived by not_derived.
repeat split; try reflexivity. exact fsub_missing.
Qed.

(** *** The demand column *)

Lemma derived_fields_demand (h : frame) (i : nat) :
(i < nrows h)%nat ->
cell_at (derived_fields h) "Market_Demand" i
= if forallb cell_isna (column h "Impressions: Total Count")
  then cell_at h "Clicks: Total Count" i
  else cell_at h "Impressions: Total Count" i.
Proof.
intros Hi. unfold derived_fields. cbv zeta.
rewrite !cell_at_assign_ne by reflexivity.
rewrite column_assign_eq.
change (map (cell_at h "Impressions: Total Count") (seq 0 (nrows h)))
  with (column h "Impressions: Total Count").
destruct (forallb cell_isna (column h "Impressions: Total Count")).
- rewrite cell_at_assign_eq by exact Hi.
  now rewrite cell_at_assign_ne by reflexivity.
- now rewrite cell_at_assign_eq by exact Hi.
Qed.

Lemma column_out (f : frame) (c : string) :
~ In c derived_names ->
column (prep_frame float_repr f) c = column (filtered float_repr f) c.
Proof.
intros Hc. unfold column. rewrite nrows_prep_frame.
apply map_ext. intros j. now apply source_cell_out.
Qed.

(** X6: the demand of a row is its market-wide impression count, unless
  that count is missing in every row (or the column is absent, or the
  table has no row): then it is the market-wide click count, missing
  when that is absent too. *)
Theorem market_demand_fallback (f : frame) (i : nat) :
(i < nrows (prep_frame float_repr f))%nat ->
let out := prep_frame float_repr f in
cell_at out "Market_Demand" i
= if forallb cell_isna (column out "Impressions: Total Count")
  then cell_at out "Clicks: Total Count" i
  else cell_at out "Impressions: Total Count" i.
Proof.
intros Hi. cbv zeta.
rewrite nrows_prep_frame in Hi.
rewrite column_out by not_derived.
rewrite !(source_cell_out f "Clicks: Total Count") by not_derived.
rewrite !(source_cell_out f "Impressions: Total Count") by not_derived.
rewrite prep_frame_stages.
rewrite cell_at_after_normalize by reflexivity.
rewrite cell_at_normalize_ne by reflexivity.
exact (derived_fields_demand _ i Hi).
Qed.

(** *** Infinite demand *)

Lemma series_max_inf (l : list float) :
Forall nonneg l -> In PInf l -> series_max l = PInf.
Proof.
induction l as [|x l IH]; intros Hall Hin; [destruct Hin|].
inversion Hall as [|? ? Hx Hl]; subst.
cbn [series_max]. rewrite (nonneg_not_nan x Hx).
destruct l as [|y l].
- destruct Hin as [->|[]]. reflexivity.
- assert (Hm : nonneg (series_max (y :: l)))
    by (apply series_max_nonneg; [exact Hl|discriminate]).
  rewrite (nonneg_not_nan _ Hm).
  destruct Hin as [->|Hin].
  + destruct (series_max (y :: l)); try destruct Hm; reflexivity.
  + rewrite (IH Hl Hin). destruct x; try destruct Hx; reflexivity.
Qed.

Lemma normalised_inf (md : nat -> float) (n i : nat) :
(exists k, (k < n)%nat /\ md k = PInf) ->
(i < n)%nat ->
(md i = PInf -> normalised md n i = NaN)
/\ (md i <> PInf -> normalised md n i = Fin 0).
Proof.
intros (k & Hk & Ek) Hi.
assert (Hm : series_max (map (fun j => log_demand (md j)) (seq 0 n)) = PInf).
{ apply series_max_inf.
  - apply Forall_forall. intros x Hx. apply in_map_iff in Hx.
    destruct Hx as (j & <- & _). apply log_demand_nonneg.
  - apply in_map_iff. exists k. split.
    + now rewrite Ek.
    + apply in_seq. lia. }
unfold normalised. rewrite Hm. split.
- intros ->. reflexivity.
- intros Hne. rewrite (log_demand_not_inf _ Hne). reflexivity.
Qed.

(** X7: when some row of the table has an infinite demand, the demand
  score is missing in every row whose demand is infinite and is 0 in
  every other row. *)
Theorem demand_score_with_infinite_demand (f : frame) (i : nat) :
(i < nrows (prep_frame float_repr f))%nat ->
(exists k, (k < nrows (prep_frame float_repr f))%nat
           /\ num_at (prep_frame float_repr f) "Market_Demand" k = PInf) ->
(num_at (prep_frame float_repr f) "Market_Demand" i = PInf ->
   num_at (prep_frame float_repr f) "DemandScore" i = NaN)
/\ (num_at (prep_frame float_repr f) "Market_Demand" i <> PInf ->
      num_at (prep_frame float_repr f) "DemandScore" i = Fin 0).
Proof.
intros Hi Hk. rewrite (demand_cell float_repr f i Hi).
now apply normalised_inf.
Qed.

(** The demand score without an infinite demand: a number of [0, 1]. *)
Lemma normalised_range (md : nat -> float) (n i : nat) :
(forall j, (j < n)%nat -> md j <> PInf) ->
(i < n)%nat ->
exists r, normalised md n i = Fin r /\ 0 <= r <= 1.
Proof.
intros Hfin Hi.
set (v := fun j => ln (1 + demand_value (md j))).
assert (Hl : forall j, (j < n)%nat -> log_demand (md j) = Fin (v j)).
{ intros j Hj. apply log_demand_not_inf. now apply Hfin. }
destruct (series_max_rows (fun j => log_demand (md j)) v n)
  as (k & Hk & Hm & Hle); [lia|exact Hl|].
assert (Hge : forall j, 0 <= v j).
{ intros j. unfold v. apply ln_1p_nonneg, demand_value_nonneg. }
unfold normalised. rewrite Hm, (Hl i Hi).
unfold fgtb. cbn [fltb].
specialize (Hle i Hi). pose proof (Hge i) as Hgi.
destruct (Rlt_dec 0 (v k)) as [Hpos|Hnpos].
- rewrite Rltb_true by exact Hpos.
  unfold fdiv. rewrite Reqb_false by lra.
  exists (v i / v k). split; [reflexivity|]. split.
  + apply Rmult_le_pos; [lra|]. left. now apply Rinv_0_lt_compat.
  + apply Rmult_le_reg_r with (r := v k); [exact Hpos|].
    unfold Rdiv. rewrite Rmult_assoc, Rinv_l by lra. lra.
- rewrite Rltb_false by lra.
  exists (v i). split; [reflexivity|lra].
Qed.

Lemma pos_at_most_one (x : float) :
at_most_one x -> exists p, pos x = Fin p /\ 0 <= p <= 1.
Proof.
destruct x as [a| | |]; cbn [at_most_one]; intros H; try contradiction.
- unfold pos. cbn [isnan fmax fleb].
  destruct (Rle_dec a 0) as [Ha|Ha].
  + rewrite Rleb_true by exact Ha. exists 0. split; [reflexivity|lra].
  + rewrite Rleb_false by lra. exists a. split; [reflexivity|lra].
- exists 0. split; [reflexivity|lra].
- exists 0. split; [reflexivity|lra].
Qed.

Lemma weighted_sum_at_most_one (r : R) (cg cv sp : float) :
0 <= r <= 1 -> at_most_one cg -> at_most_one cv -> at_most_one sp ->
exists s, weighted_sum (Fin r) cg cv sp = Fin s /\ 0 <= s <= 1.
Proof.
intros Hr Hcg Hcv Hsp.
destruct (pos_at_most_one cg Hcg) as (p1 & E1 & B1).
destruct (pos_at_most_one cv Hcv) as (p2 & E2 & B2).
destruct (pos_at_most_one sp Hsp) as (p3 & E3 & B3).
unfold weighted_sum. rewrite E1, E2, E3. cbn [fmul fadd].
eexists. split; [reflexivity|]. lra.
Qed.

(** X8: when no demand of the table is infinite and the three gaps of a
  row are missing or at most 1, the opportunity score of the row lies
  in [0, 1]: the four weights add up to 1. *)
Theorem opportunity_score_at_most_one (f : frame) (i : nat) :
(i < nrows (prep_frame float_repr f))%nat ->
(forall j, (j < nrows (prep_frame float_repr f))%nat ->
   num_at (prep_frame float_repr f) "Market_Demand" j <> PInf) ->
at_most_one (num_at (prep_frame float_repr f) "ClickGap" i) ->
at_most_one (num_at (prep_frame float_repr f) "ConvGap" i) ->
at_most_one (num_at (prep_frame float_repr f) "ShareGap_Purchases" i) ->
exists s,
  num_at (prep_frame float_repr f) "OpportunityScore" i = Fin s
  /\ 0 <= s <= 1.
Proof.
intros Hi Hfin Hcg Hcv Hsp.
unfold num_at at 1. rewrite (score_cell float_repr f i Hi). cbn [cell_float].
rewrite (demand_cell float_repr f i Hi).
destruct (normalised_range _ _ i Hfin Hi) as (r & Er & Br).
rewrite Er.
destruct (weighted_sum_at_most_one r _ _ _ Br Hcg Hcv Hsp) as (s & Es & Bs).
rewrite Es. exists s. split; [reflexivity|exact Bs].
Qed.

End DerivedRows.

(** ** Buckets and actions *)

Section Actions.

Variable float_repr : R -> string.

(** X9: the suggested action of every row of the output is the text
  [action] gives for the bucket of that row, and the five buckets
  have five different texts, so the action tells the bucket. *)
Theorem suggested_action_rows (f : frame) (i : nat) :
(i < nrows (prep_frame float_repr f))%nat ->
cell_at (prep_frame float_repr f) "Suggested Action" i
= CStr (action (cell_at (prep_frame float_repr f) "Bucket" i))
/\ (forall l1 l2,
      In l1 bucket_labels -> In l2 bucket_labels ->
      action (CStr l1) = action (CStr l2) -> l1 = l2).
Proof.
intros Hi. split.
- rewrite prep_frame_stages. unfold suggested_action.
  rewrite (cell_at_assign_ne _ "Suggested Action" "Bucket") by reflexivity.
  rewrite cell_at_assign_eq; [reflexivity|].
  rewrite nrows_buckets, nrows_opportunity_score, nrows_normalize_demand,
    nrows_derived_fields.
  now rewrite nrows_prep_frame in Hi.
- intros l1 l2 H1 H2.
  unfold bucket_labels in H1, H2. cbn [In] in H1, H2.
  destruct H1 as [<-|[<-|[<-|[<-|[<-|[]]]]]];
    destruct H2 as [<-|[<-|[<-|[<-|[<-|[]]]]]];
    intros E; try reflexivity; vm_compute in E; discriminate E.
Qed.

(** A column that is absent from the raw table, and is neither derived
  nor a renamed [Delta], is absent from the output. *)
Lemma absent_prep_frame (f : frame) (c : string) :
~ In c (derived_names ++ ["Keyword"; "Delta"; "Delta (CR)"; "Delta (CTR)"]) ->
getitem f c = None ->
getitem (prep_frame float_repr f) c = None.
Proof.
intros Hc Hn.
assert (Hde : ~ In c derived_names).
{ intros H. apply Hc. apply in_or_app. now left. }
assert (Hkw : String.eqb c "Keyword" = false).
{ apply String.eqb_neq. intros ->. apply Hc. apply in_or_app. right.
  cbn. tauto. }
assert (Hg : getitem (coerce_columns (fix_delta_columns f)) c = None).
{ apply absent_coerce_columns.
  rewrite getitem_fix_delta_columns; [exact Hn| | |];
    intros ->; apply Hc; apply in_or_app; right; cbn; tauto. }
destruct (writes_prep_frame float_repr f) as [_ G]. rewrite (G c Hde).
unfold filtered, drop_empty_keywords.
destruct (has_col _ "Keyword"); [|exact Hg].
rewrite getitem_select_rows. unfold strip_keyword, assign.
rewrite getitem_setitem_ne by exact Hkw.
now rewrite Hg.
Qed.

Lemma absent_num_at (f : frame) (c : string) (i : nat) :
getitem f c = None -> num_at f c i = NaN.
Proof. intros Hn. unfold num_at, cell_at. now rewrite Hn. Qed.

Lemma last_match_two_missing (ds imp clk pur : float) :
(imp = NaN /\ clk = NaN) \/ (imp = NaN /\ pur = NaN)
\/ (clk = NaN /\ pur = NaN) ->
last_match ds imp clk pur = "Ignore / Low Signal".
Proof.
intros H. unfold last_match.
destruct (rules_on_missing ds imp clk pur) as (I & C & P).
destruct H as [[Hi Hc]|[[Hi Hp]|[Hc Hp]]].
- destruct I as (R1 & P1 & D1); [now rewrite Hi|].
  destruct C as (_ & C1 & _); [now rewrite Hc|].
  now rewrite D1, P1, C1, R1.
- destruct I as (R1 & P1 & D1); [now rewrite Hi|].
  destruct P as (C1 & _ & _); [now rewrite Hp|].
  now rewrite D1, P1, C1, R1.
- destruct C as (R1 & C1 & P1); [now rewrite Hc|].
  destruct P as (_ & _ & D1); [now rewrite Hp|].
  now rewrite D1, P1, C1, R1.
Qed.

(** X10: when two of the three share columns (impressions, clicks,
  purchases) are absent from the raw table, every row of the output
  is in the default bucket. *)
Theorem two_shares_absent_default_bucket (f : frame) (i : nat) :
(i < nrows (prep_frame float_repr f))%nat ->
(getitem f "Impressions - ASIN Share" = None
 /\ getitem f "Clicks - ASIN Share" = None)
\/ (getitem f "Impressions - ASIN Share" = None
    /\ getitem f "Purchases - ASIN Share" = None)
\/ (getitem f "Clicks - ASIN Share" = None
    /\ getitem f "Purchases - ASIN Share" = None) ->
cell_at (prep_frame float_repr f) "Bucket" i = CStr "Ignore / Low Signal".
Proof.
intros Hi Habs. rewrite (bucket_cell float_repr f i Hi). f_equal.
assert (Hout : forall c,
           In c ["Impressions - ASIN Share"; "Clicks - ASIN Share";
                 "Purchases - ASIN Share"] ->
           getitem f c = None ->
           num_at (prep_frame float_repr f) c i = NaN).
{ intros c Hc Hn. apply absent_num_at, absent_prep_frame; [|exact Hn].
  cbn [In] in Hc. unfold derived_names. cbn [app In].
  destruct Hc as [<-|[<-|[<-|[]]]]; intros H;
    repeat (destruct H as [H|H]; [discriminate H|]); exact H. }
apply last_match_two_missing.
destruct Habs as [[A B]|[[A B]|[A B]]].
- left. split; apply Hout; cbn; tauto.
- right. left. split; apply Hout; cbn; tauto.
- right. right. split; apply Hout; cbn; tauto.
Qed.

End Actions.

(** ** More on the header functions *)

Section HeaderFacts.

Lemma delta_from_empty (l : list string) (i : nat) :
delta_from i l = [] -> ~ In "Delta" l.
Proof.
revert i. induction l as [|c l IH]; intros i H; [intros []|].
cbn [delta_from] in H.
destruct (String.eqb_spec c "Delta") as [->|Hc]; [discriminate H|].
intros [E|E]; [now apply Hc|]. now apply (IH (S i)).
Qed.

Lemma rename_deltas_no_delta (cols : list string) :
List.length (delta_idx cols) <= 2 ->
~ In "Delta" (rename_deltas cols).
Proof.
intros Hlen.
destruct (delta_split cols) as [Hn|[(pre & post & -> & Hp & Hq)
                                  |(pre & mid & post & -> & Hp & Hm)]].
- now rewrite rename_deltas_none.
- rewrite rename_deltas_one by assumption.
  intros H. apply in_app_or in H. destruct H as [H|[H|H]]; auto.
  discriminate H.
- assert (Hq : ~ In "Delta" post).
  { unfold delta_idx in Hlen.
    rewrite delta_from_skip in Hlen by assumption.
    cbn [delta_from String.eqb Ascii.eqb Bool.eqb] in Hlen.
    rewrite delta_from_skip in Hlen by assumption.
    cbn [delta_from String.eqb Ascii.eqb Bool.eqb List.length] in Hlen.
    apply (delta_from_empty post
             (S (S (0 + List.length pre) + List.length mid))).
    destruct (delta_from _ post); [reflexivity|cbn in Hlen; lia]. }
  rewrite rename_deltas_two by assumption.
  intros H. apply in_app_or in H. destruct H as [H|[H|H]]; auto.
  + discriminate H.
  + apply in_app_or in H. destruct H as [H|[H|H]]; auto.
    discriminate H.
Qed.

(** X11: on a header row with at most two [Delta] headers the renaming
  leaves no [Delta] behind, and renaming again changes nothing. *)
Theorem rename_deltas_twice (cols : list string) :
List.length (delta_idx cols) <= 2 ->
~ In "Delta" (rename_deltas cols)
/\ rename_deltas (rename_deltas cols) = rename_deltas cols.
Proof.
intros Hlen. pose proof (rename_deltas_no_delta cols Hlen) as Hn.
split; [exact Hn|]. now apply rename_deltas_none.
Qed.

(** *** [str.replace] of a text by itself *)

Lemma replace_from_skip (old new x rest : string) :
replace_from (String.length x) old new (x ++ rest)
= replace_from 0 old new rest.
Proof.
induction x as [|c x IH]; [reflexivity|].
cbn [String.length append replace_from]. exact IH.
Qed.

Lemma startswith_split (p s : string) :
startswith p s = true -> exists rest, s = (p ++ rest)%string.
Proof.
revert s. induction p as [|a p IH]; intros s H.
- exists s. reflexivity.
- destruct s as [|b s]; [discriminate H|].
  cbn [startswith] in H. apply andb_prop in H. destruct H as [Hab Hp].
  apply Ascii.eqb_eq in Hab. subst b.
  destruct (IH s Hp) as (rest & ->). exists rest. reflexivity.
Qed.

Lemma length_append (a b : string) :
String.length (a ++ b) = String.length a + String.length b.
Proof. induction a as [|c a IH]; cbn; [reflexivity|now rewrite IH]. Qed.

Lemma replace_from_self (old : string) (n : nat) (s : string) :
old <> EmptyString ->
String.length s <= n ->
replace_from 0 old old s = s.
Proof.
intros Hold. revert s. induction n as [|n IH]; intros s Hlen.
- destruct s; [reflexivity|cbn in Hlen; lia].
- destruct s as [|c r]; [reflexivity|].
  cbn [replace_from].
  destruct (startswith old (String c r)) eqn:E.
  + destruct (startswith_split _ _ E) as (rest & Hs).
    destruct old as [|a old']; [contradiction|].
    cbn [append] in Hs. injection Hs as -> ->.
    replace (String.length (String a old') - 1) with (String.length old')
      by (cbn [String.length]; lia).
    rewrite replace_from_skip.
    rewrite IH; [reflexivity|].
    cbn [String.length] in Hlen. rewrite length_append in Hlen. lia.
  + rewrite IH; [reflexivity|]. cbn [String.length] in Hlen. lia.
Qed.

Lemma replace_self (old s : string) : replace old old s = s.
Proof.
unfold replace. destruct old as [|a old']; [reflexivity|].
apply (replace_from_self _ (String.length s)); [discriminate|lia].
Qed.

(** X12: six of the eight literal replacements at the end of
  [_clean_col] replace a text by itself and change no header: the
  fixes come down to removing the space after [Our Conversion Rate]
  and after [Add to Cart - ASIN Share]. *)
Theorem typo_fixes_two_only (c : string) :
typo_fixes c
= replace "Add to Cart - ASIN Share " "Add to Cart - ASIN Share"
    (replace "Our Conversion Rate " "Our Conversion Rate" c).
Proof. unfold typo_fixes. now rewrite !replace_self. Qed.

End HeaderFacts.

(** ** More on the percent coercer *)

Section PercentFacts.

Lemma isnan_fdiv_100 (v : float) : isnan (fdiv v (Fin 100)) = isnan v.
Proof.
destruct v as [a| | |]; cbn [fdiv isnan]; try reflexivity.
- rewrite Reqb_false by lra. reflexivity.
- now destruct (Rltb 100 0).
- now destruct (Rltb 100 0).
Qed.

(** X13: the percent coercer returns one value per cell, and a value is
  missing exactly where the cell could not be read as a number:
  dividing the column by 100 neither loses nor invents a value. *)
Theorem coerce_percent_keeps_missing (series : list cell) :
List.length (_coerce_percent series) = List.length series
/\ forall i,
     isnan (nth i (_coerce_percent series) NaN)
     = isnan (nth i (map _to_number series) NaN).
Proof.
split; [apply length_coerce_percent|].
intros i. unfold _coerce_percent.
destruct (negb _ && _); [|reflexivity].
change NaN with (fdiv NaN (Fin 100)) at 1.
rewrite (map_nth (fun v => fdiv v (Fin 100))).
apply isnan_fdiv_100.
Qed.

End PercentFacts.

(** ** Loading a file *)

Section Loading.

Import Loader.

Lemma clean_all_some (cs : list (option string)) :
(exists s, In (Some s) cs) -> clean_all cs = Raise (NameError "re").
Proof.
intros (s & Hin). induction cs as [|c cs IH]; [destruct Hin|].
destruct c as [t|].
- reflexivity.
- destruct Hin as [E|Hin]; [discriminate E|].
  cbn [clean_all]. unfold _clean_col, _clean_col_in. cbn [rbind].
  now rewrite (IH Hin).
Qed.

Lemma clean_all_none (cs : list (option string)) :
(forall c, In c cs -> c = None) ->
clean_all cs = Ok (map (fun _ => EmptyString) cs).
Proof.
induction cs as [|c cs IH]; intros Hn; [reflexivity|].
rewrite (Hn c (or_introl eq_refl)).
cbn [clean_all]. unfold _clean_col, _clean_col_in. cbn [rbind].
rewrite IH; [reflexivity|].
intros c' Hc'. apply Hn. now right.
Qed.

Lemma clean_all_cases (cs : list (option string)) :
clean_all cs = Raise (NameError "re")
\/ clean_all cs = Ok (map (fun _ => EmptyString) cs).
Proof.
induction cs as [|c cs IH]; [now right|].
destruct c as [t|]; [now left|].
cbn [clean_all]. unfold _clean_col, _clean_col_in. cbn [rbind].
destruct IH as [-> | ->]; [now left|now right].
Qed.

Lemma choose_sheet_raises (sheets : list (string * raw_table))
    (best : option string) (best_score : Z) :
(exists sh t s, In (sh, t) sheets /\ In (Some s) (raw_headers t)) ->
choose_sheet sheets best best_score = Raise (NameError "re").
Proof.
revert best best_score.
induction sheets as [|[k temp] rest IH]; intros best best_score H.
- destruct H as (sh & t & s & [] & _).
- cbn [choose_sheet].
  destruct (clean_all_cases (raw_headers temp)) as [E|E]; rewrite E;
    [reflexivity|].
  cbn [rbind].
  assert (Hrest : exists sh t s,
             In (sh, t) rest /\ In (Some s) (raw_headers t)).
  { destruct H as (sh & t & s & [Hin|Hin] & Hs).
    - injection Hin as -> ->.
      rewrite (clean_all_some _ (ex_intro _ s Hs)) in E. discriminate E.
    - exists sh, t, s. now split. }
  destruct (_ <? _)%Z; now apply IH.
Qed.

(** X14: [load_anything] fails on every file that has a header.  A
  file taken for CSV with at least one header that is not [None], and
  a workbook with such a header in any of its sheets, make it raise
  [NameError] for [re]; no table is returned. *)
Theorem load_anything_raises (u : upload) :
(endswith ".csv" (lower (file_name u)) = true ->
 (exists s, In (Some s) (raw_headers (as_csv u))) ->
 load_anything u = Raise (NameError "re"))
/\ (endswith ".csv" (lower (file_name u)) = false ->
    (exists sh t s,
        In (sh, t) (first_sheet u :: more_sheets u)
        /\ In (Some s) (raw_headers t)) ->
    load_anything u = Raise (NameError "re")).
Proof.
split; intros Hext Hh; unfold load_anything; rewrite Hext.
- unfold with_clean_columns. now rewrite (clean_all_some _ Hh).
- now rewrite (choose_sheet_raises _ None (-1)%Z Hh).
Qed.

End Loading.

(** ** The counters of the page *)

Section Counters.

Variable float_repr : R -> string.

Lemma count_filter_cons {A} (p : A -> bool) (x : A) (l : list A) :
List.length (filter p (x :: l))
= (if p x then 1 else 0) + List.length (filter p l).
Proof. cbn [filter]. now destruct (p x). Qed.

Lemma one_label (c : cell) :
labelled c ->
(if is_str "Ranking Opportunity" c then 1 else 0)
+ (if is_str "Conversion Problem" c then 1 else 0)
+ (if is_str "PPC Scaling Opportunity" c then 1 else 0)
+ (if is_str "Defend Position" c then 1 else 0)
+ (if is_str "Ignore / Low Signal" c then 1 else 0) = 1.
Proof.
intros (l & -> & Hl). unfold bucket_labels in Hl. cbn [In] in Hl.
destruct Hl as [<-|[<-|[<-|[<-|[<-|[]]]]]]; reflexivity.
Qed.

Lemma counts_partition (col : series) :
Forall labelled col ->
List.length (filter (is_str "Ranking Opportunity") col)
+ List.length (filter (is_str "Conversion Problem") col)
+ List.length (filter (is_str "PPC Scaling Opportunity") col)
+ List.length (filter (is_str "Defend Position") col)
+ List.length (filter (is_str "Ignore / Low Signal") col)
= List.length col.
Proof.
induction 1 as [|c col Hc Hall IH]; [reflexivity|].
rewrite !count_filter_cons. cbn [List.length].
pose proof (one_label c Hc). lia.
Qed.

Lemma in_column (f : frame) (k : string) (c : cell) :
In c (column f k) -> exists j, j < nrows f /\ c = cell_at f k j.
Proof.
unfold column. intros Hc.
apply in_map_iff in Hc. destruct Hc as (j & <- & Hj).
apply in_seq in Hj. exists j. split; [lia|reflexivity].
Qed.

Lemma bucket_column_labelled (f : frame) :
Forall labelled (column (prep_frame float_repr f) "Bucket").
Proof.
apply Forall_forall. intros c Hc.
destruct (in_column _ _ _ Hc) as (j & Hlt & ->).
rewrite (bucket_cell float_repr f j Hlt).
exists (last_match
          (num_at (prep_frame float_repr f) "DemandScore" j)
          (num_at (prep_frame float_repr f) "Impressions - ASIN Share" j)
          (num_at (prep_frame float_repr f) "Clicks - ASIN Share" j)
          (num_at (prep_frame float_repr f) "Purchases - ASIN Share" j)).
split; [reflexivity|apply last_match_label].
Qed.

(** X15: the three counters of the page never add up to more than the
  number of rows; with the rows of the two other buckets they account
  for every row of the table, each row once. *)
Theorem kpis_partition (f : frame) :
let df := prep_frame float_repr f in
let '(total_terms, rank_ct, conv_ct, scale_ct) := kpis df in
rank_ct + conv_ct + scale_ct <= total_terms
/\ rank_ct + conv_ct + scale_ct
   + bucket_count df "Defend Position"
   + bucket_count df "Ignore / Low Signal" = total_terms.
Proof.
cbv zeta. unfold kpis, bucket_count.
pose proof (counts_partition _ (bucket_column_labelled f)) as H.
rewrite length_column in H. revert H.
generalize (nrows (prep_frame float_repr f)).
generalize (column (prep_frame float_repr f) "Bucket").
intros col n H. lia.
Qed.

End Counters.

(** ** Reading written counts *)

Section Numerals.

Local Open Scope R_scope.

Lemma digit_of_digit_char (d : nat) :
(d < 10)%nat -> digit_of (digit_char d) = Some (Z.of_nat d).
Proof.
intros Hd.
do 10 (destruct d as [|d]; [reflexivity|]). lia.
Qed.

Lemma is_space_digit_char (d : nat) :
(d < 10)%nat -> is_space (digit_char d) = false.
Proof.
intros Hd.
do 10 (destruct d as [|d]; [reflexivity|]). lia.
Qed.

Lemma digit_char_not (d : nat) (c : ascii) :
(d < 10)%nat ->
digit_of c = None ->
Ascii.eqb c (digit_char d) = false.
Proof.
intros Hd Hc. apply Ascii.eqb_neq. intros ->.
rewrite digit_of_digit_char in Hc by exact Hd. discriminate Hc.
Qed.

(** Removing the separators leaves the digits. *)
Lemma replace_commas (tokens : list (option nat)) :
Forall is_digit_token tokens ->
replace "," "" (written tokens)
= written (map Some (digits_of tokens)).
Proof.
unfold replace. induction 1 as [|t tokens Ht Hall IH]; [reflexivity|].
destruct t as [d|]; cbn [written digits_of map replace_from].
- cbn [startswith].
  rewrite (digit_char_not d ","%char Ht eq_refl). cbn [andb].
  now rewrite IH.
- cbn [startswith Ascii.eqb Bool.eqb andb String.length Nat.sub append].
  exact IH.
Qed.

End Numerals.

Section ReadingCounts.

Local Open Scope R_scope.

Lemma lstrip_no_space (s : string) : no_space s = true -> lstrip s = s.
Proof.
destruct s as [|c r]; [reflexivity|]. cbn [no_space lstrip].
intros H. apply andb_prop in H. destruct H as [Hc _].
apply negb_true_iff in Hc. now rewrite Hc.
Qed.

Lemma rstrip_no_space (s : string) : no_space s = true -> rstrip s = s.
Proof.
induction s as [|c r IH]; [reflexivity|]. cbn [no_space rstrip].
intros H. apply andb_prop in H. destruct H as [Hc Hr].
apply negb_true_iff in Hc. rewrite (IH Hr), Hc.
now destruct r.
Qed.

Lemma strip_no_space (s : string) : no_space s = true -> strip s = s.
Proof.
intros H. unfold strip. rewrite (lstrip_no_space s H).
now apply rstrip_no_space.
Qed.

Lemma no_space_append (a b : string) :
no_space (a ++ b) = no_space a && no_space b.
Proof.
induction a as [|c a IH]; [reflexivity|].
cbn [append no_space]. now rewrite IH, andb_assoc.
Qed.

Lemma no_space_written (tokens : list (option nat)) :
Forall is_digit_token tokens -> no_space (written tokens) = true.
Proof.
induction 1 as [|t tokens Ht Hall IH]; [reflexivity|].
destruct t as [d|]; cbn [written no_space].
- now rewrite (is_space_digit_char d Ht), IH.
- exact IH.
Qed.

Lemma endswith_char_snoc (c : ascii) (s : string) :
endswith_char c (s ++ String c EmptyString) = true.
Proof.
induction s as [|a s IH]; cbn [append endswith_char].
- apply Ascii.eqb_refl.
- destruct (s ++ String c EmptyString)%string eqn:E; [|exact IH].
  destruct s; discriminate E.
Qed.

Lemma drop_last_snoc (c : ascii) (s : string) :
drop_last (s ++ String c EmptyString) = s.
Proof.
induction s as [|a s IH]; [reflexivity|].
cbn [append drop_last].
destruct (s ++ String c EmptyString)%string eqn:E.
- destruct s; discriminate E.
- now rewrite IH.
Qed.

Lemma digit_char_not_percent (d : nat) :
(d < 10)%nat -> Ascii.eqb (digit_char d) "%"%char = false.
Proof.
intros Hd. do 10 (destruct d as [|d]; [reflexivity|]). lia.
Qed.

Lemma endswith_percent_written (tokens : list (option nat)) :
Forall is_digit_token tokens ->
endswith_char "%"%char (written tokens) = false.
Proof.
induction 1 as [|t tokens Ht Hall IH]; [reflexivity|].
destruct t as [d|]; cbn [written endswith_char].
- destruct (written tokens); [now apply digit_char_not_percent|exact IH].
- destruct (written tokens); [reflexivity|exact IH].
Qed.

Lemma digits_rest_written (ds : list nat) (acc : Z) (cnt : nat) :
Forall (fun d => (d < 10)%nat) ds ->
digits_rest acc cnt (written (map Some ds))
= (spelled acc ds, (cnt + List.length ds)%nat, EmptyString).
Proof.
intros Hds. revert acc cnt.
induction Hds as [|d ds Hd Hall IH]; intros acc cnt.
- cbn. now rewrite Nat.add_0_r.
- cbn [map written digits_rest spelled List.length].
  rewrite (digit_of_digit_char d Hd), IH. f_equal. f_equal. lia.
Qed.

Lemma lower_digit_char (d : nat) :
(d < 10)%nat -> lower_char (digit_char d) = digit_char d.
Proof.
intros Hd. do 10 (destruct d as [|d]; [reflexivity|]). lia.
Qed.

Lemma lower_written (ds : list nat) :
Forall (fun d => (d < 10)%nat) ds ->
lower (written (map Some ds)) = written (map Some ds).
Proof.
induction 1 as [|d ds Hd Hall IH]; [reflexivity|].
cbn [map written lower]. now rewrite (lower_digit_char d Hd), IH.
Qed.

(** [float(s)] on a text of decimal digits. *)
Lemma py_float_digits (d : nat) (ds : list nat) :
Forall (fun d => (d < 10)%nat) (d :: ds) ->
py_float (written (map Some (d :: ds)))
= Some (Fin (IZR (spelled 0 (d :: ds)))).
Proof.
intros Hall.
assert (Htok : Forall is_digit_token (map Some (d :: ds))).
{ apply Forall_forall. intros t Ht. apply in_map_iff in Ht.
  destruct Ht as (x & <- & Hx). cbn.
  rewrite Forall_forall in Hall. now apply Hall. }
unfold py_float.
rewrite (strip_no_space _ (no_space_written _ Htok)).
inversion Hall as [|? ? Hd Hds]; subst.
assert (Habs : absfloatvalue (written (map Some (d :: ds)))
               = Some (Fin (IZR (spelled 0 (d :: ds))))).
{ unfold absfloatvalue. rewrite (lower_written _ Hall).
  assert (Hnum : number (written (map Some (d :: ds)))
                 = Some (spelled 0 (d :: ds), 0%nat, EmptyString)).
  { unfold number, digitpart. cbn [map written].
    rewrite (digit_of_digit_char d Hd), (digits_rest_written ds _ _ Hds).
    reflexivity. }
  rewrite Hnum.
  assert (Hkw : (String.eqb (written (map Some (d :: ds))) "inf"
                 || String.eqb (written (map Some (d :: ds))) "infinity")%bool
                = false
                /\ String.eqb (written (map Some (d :: ds))) "nan" = false).
  { cbn [map written]. clear -Hd.
    do 10 (destruct d as [|d]; [split; reflexivity|]). lia. }
  destruct Hkw as [-> ->].
  cbn [exponent]. f_equal. f_equal.
  cbn [Z.of_nat Z.sub Z.opp Z.add powerRZ]. now rewrite Rmult_1_r. }
assert (Hsign : sign (written (map Some (d :: ds)))
                = (false, written (map Some (d :: ds)))).
{ cbn [map written]. clear -Hd.
  do 10 (destruct d as [|d]; [reflexivity|]). lia. }
rewrite Hsign, Habs. reflexivity.
Qed.

Lemma written_not_empty (tokens : list (option nat)) :
digits_of tokens <> [] -> String.eqb (written tokens) "" = false.
Proof.
destruct tokens as [|[d|] r]; [intros H; now contradiction H| |];
  intros _; reflexivity.
Qed.

(** X16: a count written in decimal digits, with thousands separators
  or without, is read as the number it spells; with a percent sign
  after it, as a hundredth of that number. *)
Theorem to_number_written_count (tokens : list (option nat)) :
Forall is_digit_token tokens ->
digits_of tokens <> [] ->
_to_number (CStr (written tokens))
= Fin (IZR (spelled 0 (digits_of tokens)))
/\ _to_number (CStr (written tokens ++ "%"))
   = Fin (IZR (spelled 0 (digits_of tokens)) / 100).
Proof.
intros Htok Hne.
assert (Hds : Forall (fun d => (d < 10)%nat) (digits_of tokens)).
{ clear Hne. induction Htok as [|t tokens Ht Hall IH]; [constructor|].
  destruct t as [d|]; cbn [digits_of]; [constructor; assumption|exact IH]. }
assert (Hpy : py_float (replace "," "" (written tokens))
              = Some (Fin (IZR (spelled 0 (digits_of tokens))))).
{ rewrite (replace_commas tokens Htok).
  destruct (digits_of tokens) as [|d ds]; [congruence|].
  now apply py_float_digits. }
split.
- unfold _to_number.
  rewrite (strip_no_space _ (no_space_written _ Htok)).
  rewrite (written_not_empty _ Hne), (endswith_percent_written _ Htok).
  now rewrite Hpy.
- unfold _to_number.
  assert (Hns : no_space (written tokens ++ "%") = true).
  { rewrite no_space_append, (no_space_written _ Htok). reflexivity. }
  rewrite (strip_no_space _ Hns).
  assert (Hne2 : String.eqb (written tokens ++ "%") "" = false).
  { destruct (written tokens); reflexivity. }
  rewrite Hne2, endswith_char_snoc, drop_last_snoc, Hpy.
  apply fdiv_fin_100.
Qed.

End ReadingCounts.

(** ** What a bucket tells about its row *)

Section BucketMeaning.

Variable float_repr : R -> string.

Local Open Scope R_scope.

Lemma last_match_meaning (ds imp clk pur : float) :
(last_match ds imp clk pur = "Ranking Opportunity" ->
   ranking_rule ds imp clk = true)
/\ (last_match ds imp clk pur = "Conversion Problem" ->
      conversion_rule ds clk pur = true)
/\ (last_match ds imp clk pur = "PPC Scaling Opportunity" ->
      ppc_rule ds pur clk imp = true)
/\ (last_match ds imp clk pur = "Defend Position" <->
      defend_rule imp pur = true)
/\ (last_match ds imp clk pur = "Ignore / Low Signal" <->
      ranking_rule ds imp clk = false
      /\ conversion_rule ds clk pur = false
      /\ ppc_rule ds pur clk imp = false
      /\ defend_rule imp pur = false).
Proof.
unfold last_match.
destruct (defend_rule imp pur), (ppc_rule ds pur clk imp),
  (conversion_rule ds clk pur), (ranking_rule ds imp clk);
  intuition (try reflexivity; try discriminate).
Qed.

(** X17: a bucket other than the default is only given to a row on
  which its rule holds; [Defend Position] is given exactly when the
  defend rule holds, and the default exactly when no rule holds. *)
Theorem bucket_meaning (f : frame) (i : nat) :
(i < nrows (prep_frame float_repr f))%nat ->
let out := prep_frame float_repr f in
let ds := num_at out "DemandScore" i in
let imp := num_at out "Impressions - ASIN Share" i in
let clk := num_at out "Clicks - ASIN Share" i in
let pur := num_at out "Purchases - ASIN Share" i in
(cell_at out "Bucket" i = CStr "Ranking Opportunity" ->
   ranking_rule ds imp clk = true)
/\ (cell_at out "Bucket" i = CStr "Conversion Problem" ->
      conversion_rule ds clk pur = true)
/\ (cell_at out "Bucket" i = CStr "PPC Scaling Opportunity" ->
      ppc_rule ds pur clk imp = true)
/\ (cell_at out "Bucket" i = CStr "Defend Position" <->
      defend_rule imp pur = true)
/\ (cell_at out "Bucket" i = CStr "Ignore / Low Signal" <->
      ranking_rule ds imp clk = false
      /\ conversion_rule ds clk pur = false
      /\ ppc_rule ds pur clk imp = false
      /\ defend_rule imp pur = false).
Proof.
intros Hi. cbv zeta. rewrite (bucket_cell float_repr f i Hi).
generalize (num_at (prep_frame float_repr f) "DemandScore" i).
generalize (num_at (prep_frame float_repr f) "Impressions - ASIN Share" i).
generalize (num_at (prep_frame float_repr f) "Clicks - ASIN Share" i).
generalize (num_at (prep_frame float_repr f) "Purchases - ASIN Share" i).
intros pur clk imp ds.
destruct (last_match_meaning ds imp clk pur) as (M1 & M2 & M3 & M4 & M5).
assert (Inj : forall a b : string, CStr a = CStr b <-> a = b).
{ intros a b. split; [intros E; now injection E|intros ->; reflexivity]. }
rewrite !Inj. repeat split; tauto.
Qed.

(** X18: the conversion rule and the PPC rule never hold together: a
  purchases share below three quarters of a positive clicks share is
  not at least 0.95 of it.  So the PPC statement never overwrites
  [Conversion Problem]. *)
Theorem conversion_excludes_ppc (ds imp clk pur : float) :
conversion_rule ds clk pur = true -> ppc_rule ds pur clk imp = false.
Proof.
unfold conversion_rule, ppc_rule, fgtb, fgeb. intros H.
apply andb_prop in H. destruct H as [H Hlt].
apply andb_prop in H. destruct H as [_ Hpos].
assert (E : fleb (fmul clk (Fin 0.95)) pur = false).
{ destruct clk as [c| | |]; try discriminate Hpos.
  - cbn [fltb] in Hpos. apply Rltb_spec in Hpos.
    cbn [fmul] in *.
    destruct pur as [p| | |]; try discriminate Hlt; try reflexivity.
    cbn [fltb] in Hlt. apply Rltb_spec in Hlt.
    cbn [fleb]. apply Rleb_false. lra.
  - cbn [fmul] in *. unfold signed_inf in *.
    rewrite Rltb_true in * by lra.
    destruct pur; try discriminate Hlt; reflexivity. }
rewrite E. now rewrite andb_false_r.
Qed.

End BucketMeaning.

(** ** The row filter on a filtered table *)

Section FilterTwice.

Variable float_repr : R -> string.

Lemma lstrip_head (s : string) (c : ascii) (r : string) :
lstrip s = String c r -> is_space c = false.
Proof.
induction s as [|a s IH]; [discriminate|].
cbn [lstrip]. destruct (is_space a) eqn:E; [exact IH|].
intros H. injection H as <- _. exact E.
Qed.

Lemma rstrip_cons (c : ascii) (r : string) :
rstrip (String c r)
= match rstrip r with
  | EmptyString => if is_space c then EmptyString else String c EmptyString
  | String a r' => String c (String a r')
  end.
Proof. reflexivity. Qed.

Lemma rstrip_twice (s : string) : rstrip (rstrip s) = rstrip s.
Proof.
induction s as [|c r IH]; [reflexivity|].
rewrite rstrip_cons. destruct (rstrip r) as [|a r'] eqn:E.
- destruct (is_space c) eqn:Ec; [reflexivity|].
  rewrite rstrip_cons. cbn [rstrip]. now rewrite Ec.
- rewrite rstrip_cons, IH. reflexivity.
Qed.

Lemma rstrip_head (c : ascii) (r : string) :
is_space c = false -> exists r', rstrip (String c r) = String c r'.
Proof.
intros Hc. rewrite rstrip_cons. destruct (rstrip r) as [|a r'].
- rewrite Hc. now exists EmptyString.
- now exists (String a r').
Qed.

(** [strip] of a stripped text is that text. *)
Lemma strip_twice (s : string) : strip (strip s) = strip s.
Proof.
unfold strip. destruct (lstrip s) as [|c r] eqn:E; [reflexivity|].
pose proof (lstrip_head s c r E) as Hc.
destruct (rstrip_head c r Hc) as (r' & Hr). rewrite Hr.
cbn [lstrip]. rewrite Hc. rewrite <- Hr. apply rstrip_twice.
Qed.

Lemma select_map_filter {A} (p : A -> bool) (l : list A) :
select (map p l) l = filter p l.
Proof.
induction l as [|x l IH]; [reflexivity|].
cbn [map select filter]. destruct (p x); now rewrite IH.
Qed.

Lemma select_all {A} (mask : list bool) (l : list A) :
forallb (fun b => b) mask = true ->
List.length l <= List.length mask ->
select mask l = l.
Proof.
revert l. induction mask as [|b m IH]; intros l Hall Hlen.
- destruct l; [reflexivity|cbn in Hlen; lia].
- destruct l as [|x r]; [reflexivity|].
  cbn [forallb] in Hall. apply andb_prop in Hall. destruct Hall as [-> Hm].
  cbn [select]. rewrite IH; [reflexivity|exact Hm|cbn in Hlen; lia].
Qed.

Lemma map_nth_seq {A B} (h : A -> B) (l : list A) (d : A) :
map (fun i => h (nth i l d)) (seq 0 (List.length l)) = map h l.
Proof.
induction l as [|x l IH]; [reflexivity|].
cbn [List.length seq map nth]. f_equal.
rewrite <- seq_shift, map_map. exact IH.
Qed.

Lemma put_same (c : string) (v : series) (l : list (string * series)) :
assoc c l = Some v -> put c v l = l.
Proof.
induction l as [|[k w] l IH]; [discriminate|].
cbn [assoc put]. destruct (String.eqb c k).
- intros E. injection E as ->. reflexivity.
- intros E. now rewrite IH.
Qed.

Lemma setitem_same (f : frame) (c : string) (v : series) :
getitem f c = Some v -> setitem f c v = f.
Proof.
intros E. unfold setitem. rewrite (put_same c v _ E). now destruct f.
Qed.

Lemma select_rows_all (mask : list bool) (f : frame) :
rect f ->
forallb (fun b => b) mask = true ->
List.length mask = nrows f ->
select_rows mask f = f.
Proof.
intros Hr Hall Hlen. unfold select_rows.
rewrite (select_all mask (index f) Hall) by (rewrite Hlen; apply Nat.le_refl).
destruct f as [idx cs]. cbn [index cols] in *. f_equal.
unfold rect in Hr. cbn [cols] in Hr.
induction Hr as [|[k w] l Hk Hl IH]; [reflexivity|].
cbn [map fst snd]. cbn [snd] in Hk.
rewrite (select_all mask w Hall) by (rewrite Hlen, Hk; apply Nat.le_refl).
now rewrite IH.
Qed.

Lemma kept_keyword_twice (c : cell) :
kept_keyword float_repr (kept_keyword float_repr c)
= kept_keyword float_repr c.
Proof. unfold kept_keyword. cbn [cell_str]. now rewrite strip_twice. Qed.

Lemma has_col_select_rows (mask : list bool) (f : frame) (c : string) :
has_col (select_rows mask f) c = has_col f c.
Proof. now rewrite !has_col_getitem, getitem_select_rows; destruct (getitem f c). Qed.

Lemma has_col_assign_same (f : frame) (c : string) (g : nat -> cell) :
has_col (assign f c g) c = true.
Proof. rewrite has_col_getitem. unfold assign. now rewrite getitem_setitem_eq. Qed.

(** X19: the row filter changes nothing on a table it has filtered:
  on a table with one cell per row in every column, filtering twice
  gives what filtering once gives. *)
Theorem drop_empty_keywords_twice (f : frame) :
rect f ->
drop_empty_keywords float_repr (drop_empty_keywords float_repr f)
= drop_empty_keywords float_repr f.
Proof.
intros Hr.
unfold drop_empty_keywords at 2 3.
destruct (has_col f "Keyword") eqn:Hk.
2:{ unfold drop_empty_keywords. now rewrite Hk. }
set (K := map (fun i => kept_keyword float_repr (cell_at f "Keyword" i))
              (seq 0 (nrows f))).
assert (Hf1 : strip_keyword float_repr f = setitem f "Keyword" K)
  by reflexivity.
assert (Hm1 : keyword_mask (strip_keyword float_repr f) = map keeps K).
{ unfold keyword_mask, strip_keyword. now rewrite column_assign_eq. }
rewrite Hm1, Hf1.
set (g1 := select_rows (map keeps K) (setitem f "Keyword" K)).
assert (HK : List.length K = nrows f) by (unfold K; apply length_tabulate).
assert (Hrect1 : rect g1).
{ unfold g1. apply rect_select_rows.
  - now apply rect_setitem.
  - now rewrite length_map, nrows_setitem. }
assert (Hkw1 : getitem g1 "Keyword" = Some (filter keeps K)).
{ unfold g1. rewrite getitem_select_rows, getitem_setitem_eq.
  cbn [option_map]. now rewrite select_map_filter. }
assert (Hn1 : nrows g1 = List.length (filter keeps K)).
{ symmetry. now apply (rect_getitem g1 "Keyword"). }
assert (Hcol2 : map (fun i => kept_keyword float_repr (cell_at g1 "Keyword" i))
                    (seq 0 (nrows g1)) = filter keeps K).
{ unfold cell_at. rewrite Hkw1, Hn1.
  rewrite (map_nth_seq (kept_keyword float_repr) (filter keeps K) (CNum NaN)).
  rewrite <- (map_id (filter keeps K)) at 2.
  apply map_ext_in. intros c Hc. apply filter_In in Hc.
  destruct Hc as [Hc _]. unfold K in Hc. apply in_map_iff in Hc.
  destruct Hc as (j & <- & _). apply kept_keyword_twice. }
assert (Hs2 : strip_keyword float_repr g1 = g1).
{ unfold strip_keyword, assign.
  change (map (fun i => CStr (strip (cell_str float_repr
                                       (cell_at g1 "Keyword" i))))
              (seq 0 (nrows g1)))
    with (map (fun i => kept_keyword float_repr (cell_at g1 "Keyword" i))
              (seq 0 (nrows g1))).
  rewrite Hcol2. now apply setitem_same. }
assert (Hm2 : keyword_mask g1 = map keeps (filter keeps K)).
{ unfold keyword_mask, column, cell_at. rewrite Hkw1, Hn1.
  rewrite (map_nth_seq (fun c => c) (filter keeps K) (CNum NaN)), map_id.
  reflexivity. }
unfold drop_empty_keywords.
assert (Hk1 : has_col g1 "Keyword" = true).
{ rewrite has_col_getitem, Hkw1. reflexivity. }
rewrite Hk1, Hs2, Hm2.
apply select_rows_all.
- exact Hrect1.
- apply forallb_forall. intros b Hb. apply in_map_iff in Hb.
  destruct Hb as (c & <- & Hc). apply filter_In in Hc. tauto.
- now rewrite length_map, Hn1.
Qed.

End FilterTwice.

(** ** The further properties on the sample tables *)

Lemma rect_scenario : rect Samples.scenario.
Proof. unfold rect. cbn [cols Samples.scenario]. repeat constructor. Qed.

Lemma nrows_prep_no_keyword_column :
  nrows (prep_frame Samples.sample_repr Samples.no_keyword_column) = 1.
Proof. rewrite nrows_prep_frame. vm_compute. reflexivity. Qed.

Lemma nrows_prep_infinite_demand :
  nrows (prep_frame Samples.sample_repr Samples.infinite_demand) = 1.
Proof. rewrite nrows_prep_frame. vm_compute. reflexivity. Qed.

Lemma prep_frame_rect_witness :
  rect (prep_frame Samples.sample_repr Samples.scenario).
Proof. exact (prep_frame_rect Samples.sample_repr Samples.scenario rect_scenario). Defined.

Lemma derived_columns_present_witness :
  exists col,
    getitem (prep_frame Samples.sample_repr Samples.scenario) "Bucket"
    = Some col
    /\ List.length col
       = nrows (prep_frame Samples.sample_repr Samples.scenario).
Proof.
  apply (derived_columns_present Samples.sample_repr Samples.scenario "Bucket").
  unfold derived_names. simpl. tauto.
Defined.

Lemma coerced_columns_numeric_witness :
  is_num (cell_at (prep_frame Samples.sample_repr Samples.scenario)
            "Our Click Through Rate" 0) = true.
Proof.
  apply (coerced_columns_numeric Samples.sample_repr Samples.scenario
           "Our Click Through Rate" 0).
  vm_compute. tauto.
Defined.

Lemma unknown_columns_pass_through_witness :
  getitem (prep_frame Samples.sample_repr Samples.with_note) "Note"
  = Some [CStr "a"].
Proof.
  rewrite (unknown_columns_pass_through Samples.sample_repr
             Samples.with_note "Note").
  - vm_compute. reflexivity.
  - vm_compute. intros H.
    repeat (destruct H as [H|H]; [discriminate H|]). exact H.
Defined.

Lemma gaps_rows_witness :
  num_at (prep_frame Samples.sample_repr Samples.scenario) "ClickGap" 0
  = fsub (num_at (prep_frame Samples.sample_repr Samples.scenario)
            "Market Click Through Rate" 0)
         (num_at (prep_frame Samples.sample_repr Samples.scenario)
            "Our Click Through Rate" 0).
Proof.
  assert (H : 0 < nrows (prep_frame Samples.sample_repr Samples.scenario))
    by (rewrite nrows_prep_scenario; lia).
  destruct (gaps_rows Samples.sample_repr Samples.scenario 0 H) as (W & _).
  exact W.
Defined.

Lemma market_demand_fallback_witness :
  cell_at (prep_frame Samples.sample_repr Samples.scenario) "Market_Demand" 0
  = if forallb cell_isna
         (column (prep_frame Samples.sample_repr Samples.scenario)
            "Impressions: Total Count")
    then cell_at (prep_frame Samples.sample_repr Samples.scenario)
           "Clicks: Total Count" 0
    else cell_at (prep_frame Samples.sample_repr Samples.scenario)
           "Impressions: Total Count" 0.
Proof.
  assert (H : 0 < nrows (prep_frame Samples.sample_repr Samples.scenario))
    by (rewrite nrows_prep_scenario; lia).
  pose proof (market_demand_fallback Samples.sample_repr Samples.scenario 0 H)
    as W.
  cbv zeta in W. exact W.
Defined.

Lemma demand_score_with_infinite_demand_witness :
  num_at (prep_frame Samples.sample_repr Samples.infinite_demand)
    "DemandScore" 0 = NaN.
Proof.
  assert (H : 0 < nrows (prep_frame Samples.sample_repr
                           Samples.infinite_demand))
    by (rewrite nrows_prep_infinite_demand; lia).
  assert (D : num_at (prep_frame Samples.sample_repr Samples.infinite_demand)
                "Market_Demand" 0 = PInf)
    by (rewrite market_demand_out; vm_compute; reflexivity).
  destruct (demand_score_with_infinite_demand Samples.sample_repr
              Samples.infinite_demand 0 H) as (W & _).
  - exists 0. split; [exact H|exact D].
  - exact (W D).
Defined.

Lemma gap_missing_no_keyword_column (c : string) :
  In c ["ClickGap"; "ConvGap"; "ShareGap_Purchases"] ->
  num_at (prep_frame Samples.sample_repr Samples.no_keyword_column) c 0 = NaN.
Proof.
  intros H.
  repeat (destruct H as [<- | H];
          [rewrite derived_num_out by reflexivity; vm_compute; reflexivity|]).
  contradiction H.
Qed.

Lemma opportunity_score_at_most_one_witness :
  exists s,
    num_at (prep_frame Samples.sample_repr Samples.no_keyword_column)
      "OpportunityScore" 0 = Fin s
    /\ (0 <= s <= 1)%R.
Proof.
  apply (opportunity_score_at_most_one Samples.sample_repr
           Samples.no_keyword_column 0).
  - rewrite nrows_prep_no_keyword_column. lia.
  - rewrite nrows_prep_no_keyword_column. intros j Hj.
    replace j with 0 by lia.
    rewrite market_demand_out. vm_compute. discriminate.
  - rewrite gap_missing_no_keyword_column by (simpl; tauto). exact I.
  - rewrite gap_missing_no_keyword_column by (simpl; tauto). exact I.
  - rewrite gap_missing_no_keyword_column by (simpl; tauto). exact I.
Defined.

Lemma suggested_action_rows_witness :
  cell_at (prep_frame Samples.sample_repr Samples.scenario)
    "Suggested Action" 0
  = CStr (action (cell_at (prep_frame Samples.sample_repr Samples.scenario)
                    "Bucket" 0)).
Proof.
  assert (H : 0 < nrows (prep_frame Samples.sample_repr Samples.scenario))
    by (rewrite nrows_prep_scenario; lia).
  destruct (suggested_action_rows Samples.sample_repr Samples.scenario 0 H)
    as (W & _).
  exact W.
Defined.

Lemma two_shares_absent_default_bucket_witness :
  cell_at (prep_frame Samples.sample_repr Samples.no_keyword_column)
    "Bucket" 0 = CStr "Ignore / Low Signal".
Proof.
  apply (two_shares_absent_default_bucket Samples.sample_repr
           Samples.no_keyword_column 0).
  - rewrite nrows_prep_no_keyword_column. lia.
  - left. split; reflexivity.
Defined.

Lemma rename_deltas_twice_witness :
  ~ In "Delta" (rename_deltas ["Keyword"; "Delta"; "Delta"])
  /\ rename_deltas (rename_deltas ["Keyword"; "Delta"; "Delta"])
     = rename_deltas ["Keyword"; "Delta"; "Delta"].
Proof.
  apply (rename_deltas_twice ["Keyword"; "Delta"; "Delta"]).
  vm_compute. lia.
Defined.

Lemma load_anything_raises_witness :
  Loader.load_anything Samples.csv_upload = Raise (NameError "re").
Proof.
  apply (proj1 (load_anything_raises Samples.csv_upload)).
  - vm_compute. reflexivity.
  - exists "Keyword". left. reflexivity.
Defined.

Lemma to_number_written_count_witness :
  _to_number (CStr (written [Some 1; None; Some 2; Some 3; Some 4]))
  = Fin (IZR (spelled 0 (digits_of [Some 1; None; Some 2; Some 3; Some 4])))
  /\ _to_number
       (CStr (written [Some 1; None; Some 2; Some 3; Some 4] ++ "%"))
     = Fin (IZR (spelled 0
                   (digits_of [Some 1; None; Some 2; Some 3; Some 4])) / 100).
Proof.
  apply (to_number_written_count [Some 1; None; Some 2; Some 3; Some 4]).
  - repeat constructor.
  - discriminate.
Defined.

Lemma bucket_meaning_witness :
  cell_at (prep_frame Samples.sample_repr Samples.scenario) "Bucket" 0
  = CStr "Defend Position"
  <-> defend_rule
        (num_at (prep_frame Samples.sample_repr Samples.scenario)
           "Impressions - ASIN Share" 0)
        (num_at (prep_frame Samples.sample_repr Samples.scenario)
           "Purchases - ASIN Share" 0) = true.
Proof.
  assert (H : 0 < nrows (prep_frame Samples.sample_repr Samples.scenario))
    by (rewrite nrows_prep_scenario; lia).
  destruct (bucket_meaning Samples.sample_repr Samples.scenario 0 H)
    as (_ & _ & _ & W & _).
  exact W.
Defined.

Lemma conversion_excludes_ppc_witness :
  ppc_rule (Fin 1) (Fin 0.01) (Fin 0.1) (Fin 0.05) = false.
Proof.
  apply (conversion_excludes_ppc (Fin 1) (Fin 0.05) (Fin 0.1) (Fin 0.01)).
  unfold conversion_rule, fgtb. cbn [fltb fmul].
  now rewrite !Rltb_true by lra.
Defined.

Lemma drop_empty_keywords_twice_witness :
  drop_empty_keywords Samples.sample_repr
    (drop_empty_keywords Samples.sample_repr Samples.with_note)
  = drop_empty_keywords Samples.sample_repr Samples.with_note.
Proof.
  apply (drop_empty_keywords_twice Samples.sample_repr Samples.with_note).
  unfold rect. cbn [cols Samples.with_note]. repeat constructor.
Defined.
